(** * Binary artifact loader: [include/storage/io.hpp]

    A shallow embedding of [osrm::storage::io]: the [File] class (typed bulk
    reads over a [boost::filesystem::ifstream]), the free-standing count
    readers, and the per-artifact decoders ([readHSGRHeader], [readEdges],
    [readNodes], [readDatasourceNames]), followed by the properties the
    specification states about them.

    Conventions of the embedding.
    - [std::size_t], [std::uint64_t], [std::uint32_t] are [Z] with the
      wrap-around of the C++ arithmetic written out ([size_t_wrap]).
    - The target is little-endian with 64-bit [size_t] and [streamsize].
    - A stream is the byte content of the file, the position of the file
      buffer and the two state bits the code can observe.  Device errors
      ([badbit]) are not modelled: the only way a read comes back short is the
      end of the file.
    - A function that can throw returns an [Outcome]; the [File] it works on
      is threaded explicitly ([IO]).  A caller's raw buffer is a list that is
      stored into by index; a store past its end is an outcome of its own.
    - What the build and the environment decide is a parameter: whether
      [BOOST_ASSERT] is compiled in, the text of [errno], the fingerprint of
      the running build, and the layout of the records whose headers lie
      outside [io.hpp]. *)

From stdpp Require Import gmap strings list.
From Stdlib Require Import ZArith Lia.
From Stdlib.Strings Require Import Byte.

Local Open Scope Z_scope.

(** ** Machine integers and bytes *)

Definition STREAMSIZE_MAX : Z := 2 ^ 63 - 1.

(** Unsigned 64-bit arithmetic: the value of a [std::size_t] expression. *)
Definition size_t_wrap (x : Z) : Z := x mod 2 ^ 64.

(** Conversion of a [std::size_t] value to the signed 64-bit
    [std::streamsize] / [boost::iostreams::stream_offset]. *)
Definition to_signed64 (x : Z) : Z := if x <=? STREAMSIZE_MAX then x else x - 2 ^ 64.

Definition byte_to_Z (b : byte) : Z := Z.of_N (Byte.to_N b).

Definition byte_of_Z (z : Z) : byte :=
  match Byte.of_N (Z.to_N (z mod 256)) with
  | Some b => b
  | None => x00
  end.

(** Little-endian value of a byte string, and the [n]-byte little-endian
    representation of a value. *)
Fixpoint le_decode (bs : list byte) : Z :=
  match bs with
  | [] => 0
  | b :: bs' => byte_to_Z b + 256 * le_decode bs'
  end.

Fixpoint le_encode (n : nat) (z : Z) : list byte :=
  match n with
  | O => []
  | S n' => byte_of_Z z :: le_encode n' (z / 256)
  end.

(** ** Trivially copyable types

    [readInto] is a template over a trivially copyable [T]: all it uses of [T]
    is [sizeof(T)] and the fact that the bytes stored at the destination are
    the object.  [from_bytes] reads an object out of its [sizeof] bytes. *)
Class TriviallyCopyable (T : Type) := {
  sizeof : Z;
  from_bytes : list byte -> T;
  sizeof_bounds : 0 < sizeof <= STREAMSIZE_MAX
}.
Arguments sizeof T {_}.
Arguments from_bytes T {_} _.

(** The object representation of a value, for the types whose every byte
    pattern is a value (no padding, no trap representation). *)
Class ObjectRepresentation (T : Type) `{TriviallyCopyable T} := {
  to_bytes : T -> list byte;
  to_from_bytes : forall bs : list byte,
    Z.of_nat (length bs) = sizeof T -> to_bytes (from_bytes T bs) = bs
}.
Arguments to_bytes T {_ _} _.

Definition uint8 : Type := Z.
Definition uint32 : Type := Z.
Definition uint64 : Type := Z.
#[global] Typeclasses Opaque uint8 uint32 uint64.

Lemma uint8_bounds : 0 < 1 <= STREAMSIZE_MAX.
Proof. unfold STREAMSIZE_MAX. lia. Qed.

Lemma uint32_bounds : 0 < 4 <= STREAMSIZE_MAX.
Proof. unfold STREAMSIZE_MAX. lia. Qed.

Lemma uint64_bounds : 0 < 8 <= STREAMSIZE_MAX.
Proof. unfold STREAMSIZE_MAX. lia. Qed.

#[global] Instance uint8_copyable : TriviallyCopyable uint8 :=
  {| sizeof := 1; from_bytes := le_decode; sizeof_bounds := uint8_bounds |}.

#[global] Instance uint32_copyable : TriviallyCopyable uint32 :=
  {| sizeof := 4; from_bytes := le_decode; sizeof_bounds := uint32_bounds |}.

#[global] Instance uint64_copyable : TriviallyCopyable uint64 :=
  {| sizeof := 8; from_bytes := le_decode; sizeof_bounds := uint64_bounds |}.

Lemma byte_to_Z_range (b : byte) : 0 <= byte_to_Z b < 256.
Proof. unfold byte_to_Z. pose proof (Byte.to_N_bounded b) as Hb. lia. Qed.

Lemma byte_of_Z_low (b : byte) (x : Z) : byte_of_Z (byte_to_Z b + 256 * x) = b.
Proof.
  pose proof (byte_to_Z_range b) as Hb. unfold byte_of_Z.
  rewrite (Z.mul_comm 256 x), Z_mod_plus_full, Z.mod_small by done.
  unfold byte_to_Z. by rewrite N2Z.id, Byte.of_to_N.
Qed.

Lemma le_encode_decode (n : nat) (bs : list byte) :
  length bs = n -> le_encode n (le_decode bs) = bs.
Proof.
  intros <-. induction bs as [|b bs IH]; simpl; [done|].
  pose proof (byte_to_Z_range b) as Hb.
  rewrite byte_of_Z_low. f_equal.
  rewrite (Z.mul_comm 256 (le_decode bs)), Z_div_plus_full, Z.div_small by lia.
  exact IH.
Qed.

Lemma uint_to_from_bytes (n : nat) (size : Z) (bs : list byte) :
  size = Z.of_nat n -> Z.of_nat (length bs) = size -> le_encode n (le_decode bs) = bs.
Proof. intros -> Hlen. apply le_encode_decode. lia. Qed.

#[global] Instance uint8_representation : @ObjectRepresentation uint8 uint8_copyable :=
  @Build_ObjectRepresentation uint8 uint8_copyable (le_encode 1)
    (fun bs => uint_to_from_bytes 1 1 bs eq_refl).

#[global] Instance uint32_representation : @ObjectRepresentation uint32 uint32_copyable :=
  @Build_ObjectRepresentation uint32 uint32_copyable (le_encode 4)
    (fun bs => uint_to_from_bytes 4 4 bs eq_refl).

#[global] Instance uint64_representation : @ObjectRepresentation uint64 uint64_copyable :=
  @Build_ObjectRepresentation uint64 uint64_copyable (le_encode 8)
    (fun bs => uint_to_from_bytes 8 8 bs eq_refl).

(** ** Outcomes and the [File] state monad *)

Inductive Outcome (A : Type) : Type :=
  | Ok (a : A)
  | Throw (what : string)        (* an exception propagates, with its what() *)
  | AssertFail (expr : string)   (* a BOOST_ASSERT fired: the process aborts *)
  | OutOfBounds.                 (* a store past the end of a caller's buffer *)
Arguments Ok {A} a.
Arguments Throw {A} what.
Arguments AssertFail {A} expr.
Arguments OutOfBounds {A}.

(** [std::basic_ifstream<char>] over an open file. *)
Record ifstream : Type := {
  bytes : list byte;    (* the content of the file *)
  offset : nat;         (* position of the file buffer, from the start *)
  eofbit : bool;
  failbit : bool
}.

Definition good (s : ifstream) : bool := negb (eofbit s) && negb (failbit s).

(** The bytes from the position of the buffer to the end of the file. *)
Definition unread (s : ifstream) : list byte := drop (offset s) (bytes s).

Definition setstate (s : ifstream) (eof fail : bool) : ifstream :=
  {| bytes := bytes s; offset := offset s;
     eofbit := eofbit s || eof; failbit := failbit s || fail |}.

Definition advance (s : ifstream) (n : nat) : ifstream :=
  {| bytes := bytes s; offset := (offset s + n)%nat;
     eofbit := eofbit s; failbit := failbit s |}.

(** [istream::read(dst, n)], returning the characters stored at [dst]; their
    number is what [gcount()] reports afterwards.  A stream that is not
    [good()] fails the sentry: [failbit] is set and nothing is extracted.
    Otherwise characters are extracted until [n] are stored or the end of the
    file is met, which sets [eofbit | failbit].  A negative [n] extracts
    nothing and counts as a short read. *)
Definition istream_read (s : ifstream) (n : Z) : list byte * ifstream :=
  if good s then
    let stored := take (Z.to_nat n) (unread s) in
    let s' := advance s (length stored) in
    if Z.of_nat (length stored) =? n then (stored, s') else (stored, setstate s' true true)
  else ([], setstate s false true).

(** [rdbuf()->pubseekoff(off, cur)], which is what
    [boost::iostreams::seek(stream, off, BOOST_IOS::cur)] calls on a standard
    stream: the file buffer moves, the state bits of the stream are not
    consulted and not changed.  A target before the start of the file or
    beyond the largest file offset is refused and the position stays. *)
Definition seek_cur (s : ifstream) (off : Z) : ifstream :=
  let target := Z.of_nat (offset s) + off in
  if (0 <=? target) && (target <=? STREAMSIZE_MAX)
  then {| bytes := bytes s; offset := Z.to_nat target;
          eofbit := eofbit s; failbit := failbit s |}
  else s.

(** A stream just opened on a file. *)
Definition ifstream_open (content : list byte) : ifstream :=
  {| bytes := content; offset := 0%nat; eofbit := false; failbit := false |}.

Record File : Type := {
  filename : string;
  input_stream : ifstream
}.

Definition with_stream (f : File) (s : ifstream) : File :=
  {| filename := filename f; input_stream := s |}.

Definition IO (A : Type) : Type := File -> Outcome A * File.

Definition ret {A} (a : A) : IO A := fun f => (Ok a, f).

Definition bind {A B} (m : IO A) (k : A -> IO B) : IO B := fun f =>
  match m f with
  | (Ok a, f') => k a f'
  | (Throw what, f') => (Throw what, f')
  | (AssertFail expr, f') => (AssertFail expr, f')
  | (OutOfBounds, f') => (OutOfBounds, f')
  end.

Notation "x <- m ;; k" := (bind m (fun x => k))
  (at level 100, m at next level, right associativity).
Notation "m ;;; k" := (bind m (fun _ => k))
  (at level 100, right associativity).

(** [std::getline(stream, line)]: the characters before the first newline of
    [bs], and whether a newline was met (it is extracted and dropped). *)
Fixpoint until_newline (bs : list byte) : list byte * bool :=
  match bs with
  | [] => ([], false)
  | b :: bs' =>
      if Byte.eqb b x0a then ([], true)
      else let '(line, delim) := until_newline bs' in (b :: line, delim)
  end.

(** The result is [Some line] when the stream converts to [true] afterwards
    ([!fail()]).  Meeting the end of the file sets [eofbit]; extracting
    nothing at all sets [failbit] as well. *)
Definition getline (s : ifstream) : option (list byte) * ifstream :=
  if good s then
    let '(line, delim) := until_newline (unread s) in
    if delim then (Some line, advance s (length line + 1))
    else if Z.of_nat (length line) =? 0 then (None, setstate s true true)
    else (Some line, setstate (advance s (length line)) true false)
  else (None, setstate s false true).

(** ** The overloads of namespace [io] that take the raw stream *)

Module io.

(** The object the call reads into, after [stored] was copied over its first
    bytes. *)
Definition overwrite (stored object : list byte) : list byte :=
  stored ++ drop (length stored) object.

(** [inline std::uint64_t readElementCount64(boost::filesystem::ifstream &)] *)
Definition readElementCount64 (input_stream : ifstream) : uint64 * ifstream :=
  let number_of_elements := le_encode 8 0 in
  let '(stored, input_stream') := istream_read input_stream 8 in
  (le_decode (overwrite stored number_of_elements), input_stream').

(** [inline std::uint64_t readElementCount32(boost::filesystem::ifstream &)] *)
Definition readElementCount32 (input_stream : ifstream) : uint64 * ifstream :=
  let number_of_elements := le_encode 4 0 in
  let '(stored, input_stream') := istream_read input_stream 4 in
  (le_decode (overwrite stored number_of_elements), input_stream').

End io.

(** ** Records of the artifacts *)

(** Modelled from the spec: [util/fingerprint.hpp] is not part of the sources
    at hand.  The specification describes the fingerprint as a magic number
    and one independent version marker per producing subsystem
    (graph-construction, contraction, spatial-index, query-object layout), and
    its tests as total boolean comparisons that never throw.  The four tests
    keep the names under which [io.hpp] calls them. *)
Record FingerPrint : Type := {
  magic_number : Z;
  graph_construction : Z;
  contraction : Z;
  spatial_index : Z;
  query_object : Z
}.

Definition IsMagicNumberOK (self other : FingerPrint) : bool :=
  magic_number other =? magic_number self.
Definition TestGraphUtil (self other : FingerPrint) : bool :=
  graph_construction self =? graph_construction other.
Definition TestContractor (self other : FingerPrint) : bool :=
  contraction self =? contraction other.
Definition TestRTree (self other : FingerPrint) : bool :=
  spatial_index self =? spatial_index other.
Definition TestQueryObjects (self other : FingerPrint) : bool :=
  query_object self =? query_object other.

(** The text [readHSGRHeader] hands to the logger at level [logWARNING]. *)
Definition hsgr_warning : string :=
  ".hsgr was prepared with different build.
Reprocess to get rid of this warning.".

(** [struct HSGRHeader], packed: 4 + 8 + 8 bytes. *)
Record HSGRHeader : Type := {
  checksum : uint32;
  number_of_nodes : uint64;
  number_of_edges : uint64
}.

Definition GeometryID : Type := Z.
Definition NameID : Type := Z.
Definition TurnInstruction : Type := Z.
Definition LaneDataID : Type := Z.
Definition TravelMode : Type := Z.
Definition EntryClassID : Type := Z.
Definition TurnBearing : Type := Z.
Definition OSMNodeID : Type := Z.

(** [extractor::OriginalEdgeData], by the members [readEdges] copies out. *)
Record OriginalEdgeData : Type := {
  via_geometry : GeometryID;
  name_id : NameID;
  turn_instruction : TurnInstruction;
  lane_data_id : LaneDataID;
  travel_mode : TravelMode;
  entry_classid : EntryClassID;
  pre_turn_bearing : TurnBearing;
  post_turn_bearing : TurnBearing
}.

(** [extractor::QueryNode], by the members [readNodes] copies out. *)
Record QueryNode : Type := {
  lon : Z;
  lat : Z;
  node_id : OSMNodeID
}.

(** [util::Coordinate(lon, lat)] *)
Record Coordinate : Type := {
  coordinate_lon : Z;
  coordinate_lat : Z
}.

(** The caller's buffers [readEdges] stores into. *)
Record EdgeLists : Type := {
  geometry_list : list GeometryID;
  name_id_list : list NameID;
  turn_instruction_list : list TurnInstruction;
  lane_data_id_list : list LaneDataID;
  travel_mode_list : list TravelMode;
  entry_class_id_list : list EntryClassID;
  pre_turn_bearing_list : list TurnBearing;
  post_turn_bearing_list : list TurnBearing
}.

(** The sequences [readEdges] is handed, as their lengths. *)
Definition edge_list_lengths (l : EdgeLists) : list nat :=
  [ length (geometry_list l); length (name_id_list l);
    length (turn_instruction_list l); length (lane_data_id_list l);
    length (travel_mode_list l); length (entry_class_id_list l);
    length (pre_turn_bearing_list l); length (post_turn_bearing_list l) ].

(** [struct DatasourceNamesData] *)
Record DatasourceNamesData : Type := {
  names : list byte;
  offsets : list nat;
  lengths : list nat
}.

(** [buf[i] = v] through a raw pointer: defined only inside the buffer. *)
Definition store_at {A} (buf : list A) (i : nat) (v : A) : IO (list A) := fun f =>
  if decide (i < length buf)%nat then (Ok (<[i:=v]> buf), f) else (OutOfBounds, f).

(** [n] objects out of consecutive [sizeof(T)]-byte chunks. *)
Fixpoint array_of_bytes (T : Type) `{TriviallyCopyable T} (n : nat) (bs : list byte) : list T :=
  match n with
  | O => []
  | S n' =>
      from_bytes T (take (Z.to_nat (sizeof T)) bs)
        :: array_of_bytes T n' (drop (Z.to_nat (sizeof T)) bs)
  end.

(** [std::vector<T>::max_size()] and [resize(count)]: the new elements are
    value-initialised; a length beyond [max_size()] throws
    [std::length_error].  Exhaustion of memory is not modelled. *)
Definition max_size (T : Type) `{TriviallyCopyable T} : Z := STREAMSIZE_MAX / sizeof T.

Definition value_initialized (T : Type) `{TriviallyCopyable T} : T :=
  from_bytes T (replicate (Z.to_nat (sizeof T)) x00).

Definition vector_resize (T : Type) `{TriviallyCopyable T} (data : list T) (count : Z)
  : IO (list T) := fun f =>
  if count >? max_size T then (Throw "vector::_M_default_append", f)
  else (Ok (take (Z.to_nat count) data
              ++ replicate (Z.to_nat count - length data)%nat (value_initialized T)), f).

(** ** Positioning: [tellg], [seekg] and the functions built on them *)

Inductive seekdir : Type := ios_beg | ios_cur | ios_end.

(** [rdbuf()->pubseekoff(off, way)] on the file buffer: the new position, or
    [-1] and no move where the target lies before the start of the file or
    beyond the largest file offset.  A target behind the end of the file is
    not refused. *)
Definition pubseekoff (s : ifstream) (off : Z) (way : seekdir) : Z * ifstream :=
  let base :=
    match way with
    | ios_beg => 0
    | ios_cur => Z.of_nat (offset s)
    | ios_end => Z.of_nat (length (bytes s))
    end in
  let target := base + off in
  if (0 <=? target) && (target <=? STREAMSIZE_MAX)
  then (target, {| bytes := bytes s; offset := Z.to_nat target;
                   eofbit := eofbit s; failbit := failbit s |})
  else (-1, s).

(** [istream::tellg()]: the sentry sets [failbit] on a stream that is not
    [good()]; a failed stream answers [pos_type(-1)]. *)
Definition istream_tellg (s : ifstream) : Z * ifstream :=
  if good s then ((pubseekoff s 0 ios_cur).1, s) else (-1, setstate s false true).

(** [istream::seekg(off, way)]: [eofbit] is cleared first; a failed stream is
    left where it is; a seek the buffer refuses sets [failbit]. *)
Definition istream_seekg (s : ifstream) (off : Z) (way : seekdir) : ifstream :=
  let cleared := {| bytes := bytes s; offset := offset s;
                    eofbit := false; failbit := failbit s |} in
  if failbit cleared then cleared
  else
    let '(position, moved) := pubseekoff cleared off way in
    if position =? -1 then setstate moved false true else moved.

(** [std::size_t File::size()] *)
Definition File_size (f : File) : Z * File :=
  let '(current_pos, s1) := istream_tellg (input_stream f) in
  let s2 := istream_seekg s1 0 ios_end in
  let '(length_, s3) := istream_tellg s2 in
  let s4 := istream_seekg s3 current_pos ios_beg in
  (size_t_wrap length_, with_stream f s4).

(** [inline std::size_t readPropertiesCount()] *)
Definition readPropertiesCount : Z := 1.

(** [inline std::size_t readNumberOfBytes(boost::filesystem::ifstream &)] *)
Definition readNumberOfBytes (input_stream : ifstream) : Z * ifstream :=
  let s1 := istream_seekg input_stream 0 ios_end in
  let '(length_, s2) := istream_tellg s1 in
  let s3 := istream_seekg s2 0 ios_beg in
  (size_t_wrap length_, s3).

(** [inline void readTimestamp(boost::filesystem::ifstream &, char *timestamp,
    const std::size_t timestamp_length)].  The result is the content of the
    caller's buffer afterwards; nothing is checked. *)
Definition readTimestamp (timestamp_input_stream : ifstream) (timestamp : list byte)
    (timestamp_length : Z) : Outcome (list byte) * ifstream :=
  let '(stored, s') :=
    istream_read timestamp_input_stream (to_signed64 (size_t_wrap (timestamp_length * 1))) in
  if decide (length stored <= length timestamp)%nat
  then (Ok (io.overwrite stored timestamp), s')
  else (OutOfBounds, s').

(** What a writer of text lines produces: every line followed by a newline. *)
Definition unlines (lines : list (list byte)) : list byte :=
  concat ((fun line => line ++ [x0a]) <$> lines).

(** ** Sample layouts and files

    The theorems below hold for every layout of the three records and for
    every validity test.  To run the definitions on concrete files, the
    records are given a packed little-endian layout here, with the members in
    the order in which the specification lists them. *)

Definition field (from len : nat) (bs : list byte) : Z := le_decode (take len (drop from bs)).

Definition to_signed32 (x : Z) : Z := if x <? 2 ^ 31 then x else x - 2 ^ 32.

Lemma sample_bounds_20 : 0 < 20 <= STREAMSIZE_MAX.
Proof. unfold STREAMSIZE_MAX. lia. Qed.

Lemma sample_bounds_16 : 0 < 16 <= STREAMSIZE_MAX.
Proof. unfold STREAMSIZE_MAX. lia. Qed.

Definition FingerPrint_sample : TriviallyCopyable FingerPrint :=
  {| sizeof := 20;
     from_bytes := fun bs =>
       {| magic_number := field 0 4 bs;
          graph_construction := field 4 4 bs;
          contraction := field 8 4 bs;
          spatial_index := field 12 4 bs;
          query_object := field 16 4 bs |};
     sizeof_bounds := sample_bounds_20 |}.

Definition OriginalEdgeData_sample : TriviallyCopyable OriginalEdgeData :=
  {| sizeof := 16;
     from_bytes := fun bs =>
       {| via_geometry := field 0 4 bs;
          name_id := field 4 4 bs;
          turn_instruction := field 8 1 bs;
          lane_data_id := field 9 2 bs;
          travel_mode := field 11 1 bs;
          entry_classid := field 12 2 bs;
          pre_turn_bearing := field 14 1 bs;
          post_turn_bearing := field 15 1 bs |};
     sizeof_bounds := sample_bounds_16 |}.

Definition QueryNode_sample : TriviallyCopyable QueryNode :=
  {| sizeof := 16;
     from_bytes := fun bs =>
       {| lon := to_signed32 (field 0 4 bs);
          lat := to_signed32 (field 4 4 bs);
          node_id := field 8 8 bs |};
     sizeof_bounds := sample_bounds_16 |}.

(** Modelled from the spec: [util/coordinate.hpp] is not part of the sources
    at hand.  The specification has [readNodes] check that a coordinate "lies
    within valid longitude/latitude range"; longitude and latitude are taken
    in degrees scaled by [10^6]. *)
Definition IsValid_sample (c : Coordinate) : bool :=
  (-180000000 <=? coordinate_lon c) && (coordinate_lon c <=? 180000000) &&
  (-90000000 <=? coordinate_lat c) && (coordinate_lat c <=? 90000000).

(** The fingerprint of the running build in the samples, and its bytes. *)
Definition valid_sample : FingerPrint :=
  {| magic_number := 1297240911; graph_construction := 1; contraction := 2;
     spatial_index := 3; query_object := 4 |}.

Definition fingerprint_bytes (fp : FingerPrint) : list byte :=
  le_encode 4 (magic_number fp) ++ le_encode 4 (graph_construction fp) ++
  le_encode 4 (contraction fp) ++ le_encode 4 (spatial_index fp) ++
  le_encode 4 (query_object fp).

(** A [.hsgr] file: fingerprint, checksum, node count, edge count. *)
Definition hsgr_sample (fp : FingerPrint) (header : HSGRHeader) : File :=
  {| filename := "sample.hsgr";
     input_stream :=
       ifstream_open (fingerprint_bytes fp ++ le_encode 4 (checksum header) ++
                      le_encode 8 (number_of_nodes header) ++
                      le_encode 8 (number_of_edges header)) |}.

Definition edge_bytes (e : OriginalEdgeData) : list byte :=
  le_encode 4 (via_geometry e) ++ le_encode 4 (name_id e) ++
  le_encode 1 (turn_instruction e) ++ le_encode 2 (lane_data_id e) ++
  le_encode 1 (travel_mode e) ++ le_encode 2 (entry_classid e) ++
  le_encode 1 (pre_turn_bearing e) ++ le_encode 1 (post_turn_bearing e).

Definition node_bytes (n : QueryNode) : list byte :=
  le_encode 4 (lon n) ++ le_encode 4 (lat n) ++ le_encode 8 (node_id n).

Definition edge_sample_1 : OriginalEdgeData :=
  {| via_geometry := 11; name_id := 12; turn_instruction := 13; lane_data_id := 14;
     travel_mode := 15; entry_classid := 16; pre_turn_bearing := 17;
     post_turn_bearing := 18 |}.

Definition edge_sample_2 : OriginalEdgeData :=
  {| via_geometry := 21; name_id := 22; turn_instruction := 23; lane_data_id := 24;
     travel_mode := 25; entry_classid := 26; pre_turn_bearing := 27;
     post_turn_bearing := 28 |}.

Definition edges_sample : File :=
  {| filename := "sample.edges";
     input_stream := ifstream_open (edge_bytes edge_sample_1 ++ edge_bytes edge_sample_2) |}.

Definition no_edges : EdgeLists :=
  {| geometry_list := [0; 0]; name_id_list := [0; 0]; turn_instruction_list := [0; 0];
     lane_data_id_list := [0; 0]; travel_mode_list := [0; 0];
     entry_class_id_list := [0; 0]; pre_turn_bearing_list := [0; 0];
     post_turn_bearing_list := [0; 0] |}.

Definition far_east : QueryNode := {| lon := 200000000; lat := 2000000; node_id := 20 |}.

(** Two node records, the second with a longitude of 200 degrees. *)
Definition nodes_sample : File :=
  {| filename := "sample.nodes";
     input_stream :=
       ifstream_open (node_bytes {| lon := 1000000; lat := 1000000; node_id := 10 |} ++
                      node_bytes far_east) |}.

(** A file of five bytes, too short for two 32-bit words. *)
Definition short_sample : File :=
  {| filename := "sample.bin"; input_stream := ifstream_open [x01; x02; x03; x04; x05] |}.

(** A length-prefixed vector of two 32-bit words, and one byte behind it. *)
Definition vector_sample : File :=
  {| filename := "sample.vector";
     input_stream := ifstream_open (le_encode 8 2 ++ (le_encode 4 7 ++ le_encode 4 9) ++ [xff]) |}.

(** A fingerprint written by another build: only the magic number differs. *)
Definition foreign_magic_sample : FingerPrint :=
  {| magic_number := 0; graph_construction := 1; contraction := 2;
     spatial_index := 3; query_object := 4 |}.


Definition fs_sample : gmap string (list byte) :=
  {[ "foreign.hsgr" := fingerprint_bytes foreign_magic_sample ++ [x00; x00] ]}.

Definition empty_graph_header : HSGRHeader :=
  {| checksum := 7; number_of_nodes := 0; number_of_edges := 5 |}.

Definition origin : Coordinate := {| coordinate_lon := 0; coordinate_lat := 0 |}.

(** What [readEdges] leaves in [no_edges] after the two records of
    [edges_sample]. *)
Definition edges_result : EdgeLists :=
  {| geometry_list := [11; 21]; name_id_list := [12; 22];
     turn_instruction_list := [13; 23]; lane_data_id_list := [14; 24];
     travel_mode_list := [15; 25]; entry_class_id_list := [16; 26];
     pre_turn_bearing_list := [17; 27]; post_turn_bearing_list := [18; 28] |}.

(** A [.timestamp] file holding the four characters 2016. *)
Definition timestamp_sample : ifstream := ifstream_open [x32; x30; x31; x36].

(** A [.datasource_names] file: the line ab, an empty line, and cd without a
    newline behind it. *)
Definition names_sample : File :=
  {| filename := "sample.datasource_names";
     input_stream := ifstream_open [x61; x62; x0a; x0a; x63; x64] |}.

(** A file system with a file written by the running build, an empty file and
    a file that ends inside the fingerprint. *)
Definition fs_build_sample : gmap string (list byte) :=
  {[ "build.hsgr" := fingerprint_bytes valid_sample ++ le_encode 4 7;
     "empty.hsgr" := [];
     "cut.hsgr" := [x4f; x53] ]}.

Section StorageIO.

(** The text [std::strerror(errno)] yields when an exception message is built.
    [errno] belongs to the environment: no operation modelled here sets it. *)
Variable strerror_errno : string.

(** ** class File *)

(** [template <typename T> void readInto(T *dest, const std::size_t count)].
    The result is the bytes stored at [dest]. *)
Definition readInto (T : Type) `{TriviallyCopyable T} (count : Z) : IO (list byte) := fun f =>
  if count =? 0 then (Ok [], f)
  else
    let '(stored, s') :=
      istream_read (input_stream f) (to_signed64 (size_t_wrap (count * sizeof T))) in
    let bytes_read := Z.of_nat (length stored) in
    let expected_bytes := size_t_wrap (count * sizeof T) in
    if bytes_read =? 0 then
      (Throw ("Error reading from " +:+ filename f +:+ ": " +:+ strerror_errno),
       with_stream f s')
    else if bytes_read <? expected_bytes then
      (Throw ("Error reading from " +:+ filename f +:+ ": Unexpected end of file"),
       with_stream f s')
    else (Ok stored, with_stream f s').

(** [template <typename T> void readInto(T &target) { readInto(&target, 1); }] *)
Definition readInto_ref (T : Type) `{TriviallyCopyable T} : IO T :=
  stored <- readInto T 1 ;; ret (from_bytes T stored).

(** [template <typename T> T readOne()] *)
Definition readOne (T : Type) `{TriviallyCopyable T} : IO T :=
  tmp <- readInto_ref T ;; ret tmp.

(** [template <typename T> void skip(const std::size_t element_count)] *)
Definition skip (T : Type) `{TriviallyCopyable T} (element_count : Z) (f : File) : File :=
  with_stream f
    (seek_cur (input_stream f) (to_signed64 (size_t_wrap (element_count * sizeof T)))).

Definition readElementCount32 : IO uint32 := readOne uint32.
Definition readElementCount64 : IO uint64 := readOne uint64.

(** [template <typename T> void deserializeVector(std::vector<T> &data)].
    The result is the content of [data] afterwards: the bulk read covers every
    element of the resized vector. *)
Definition deserializeVector (T : Type) `{TriviallyCopyable T} (data : list T) : IO (list T) :=
  count <- readElementCount64 ;;
  resized <- vector_resize T data count ;;
  stored <- readInto T count ;;
  ret (array_of_bytes T (length resized) stored).

(** The layout of the records whose headers are not part of the sources at
    hand, and the fingerprint of the running build. *)
Context `{FingerPrint_copyable : TriviallyCopyable FingerPrint}.
Context `{OriginalEdgeData_copyable : TriviallyCopyable OriginalEdgeData}.
Context `{QueryNode_copyable : TriviallyCopyable QueryNode}.
Variable GetValid : FingerPrint.

(** [util::Coordinate::IsValid()] *)
Variable IsValid : Coordinate -> bool.

(** Whether [BOOST_ASSERT] expands to nothing in this build, as [NDEBUG] or
    [BOOST_DISABLE_ASSERTS] make it in a release build. *)
Variable assertions_disabled : bool.

Definition BOOST_ASSERT (expr : string) (holds : bool) : IO unit := fun f =>
  if assertions_disabled then (Ok tt, f)
  else if holds then (Ok tt, f)
  else (AssertFail expr, f).

(** [bool readAndCheckFingerprint()] *)
Definition readAndCheckFingerprint : IO bool :=
  fingerprint <- readOne FingerPrint ;;
  let valid := GetValid in
  ret (IsMagicNumberOK valid fingerprint && TestContractor valid fingerprint &&
       TestGraphUtil valid fingerprint && TestRTree valid fingerprint &&
       TestQueryObjects valid fingerprint).

(** [File(const boost::filesystem::path &filename_, const bool check_fingerprint)]
    over a file system given as the content of each path that can be opened. *)
Definition File_open (fs : gmap string (list byte)) (filename_ : string)
    (check_fingerprint : bool) : Outcome File :=
  match fs !! filename_ with
  | None => Throw ("Error opening " +:+ filename_ +:+ ":" +:+ strerror_errno)
  | Some content =>
      let this := {| filename := filename_; input_stream := ifstream_open content |} in
      if check_fingerprint then
        match readAndCheckFingerprint this with
        | (Ok true, this') => Ok this'
        | (Ok false, _) => Throw ("Fingerprint mismatch in " +:+ filename_)
        | (Throw what, _) => Throw what
        | (AssertFail expr, _) => AssertFail expr
        | (OutOfBounds, _) => OutOfBounds
        end
      else Ok this
  end.

(** [std::vector<std::string> readLines()].  The stream never throws (its
    exception mask is left empty), so the loop ends when [getline] leaves the
    stream failed; each turn consumes a character or ends the loop, which
    bounds the number of turns by the length of the file.  The line echoed to
    [std::clog] is not part of the state. *)
Fixpoint readLines_loop (turns : nat) (s : ifstream) (result : list (list byte))
  : list (list byte) * ifstream :=
  match turns with
  | O => (result, s)
  | S turns' =>
      match getline s with
      | (Some thisline, s') => readLines_loop turns' s' (result ++ [thisline])
      | (None, s') => (result, s')
      end
  end.

Definition readLines (f : File) : list (list byte) * File :=
  let '(result, s') :=
    readLines_loop (S (S (length (bytes (input_stream f))))) (input_stream f) [] in
  (result, with_stream f s').

(** ** Artifact decoders *)

(** [inline HSGRHeader readHSGRHeader(io::File &input_file)], with the
    warnings handed to [util::SimpleLogger]. *)
Definition readHSGRHeader (input_file : File) : Outcome HSGRHeader * File * list string :=
  let fingerprint_valid := GetValid in
  match readOne FingerPrint input_file with
  | (Ok fingerprint_loaded, input_file1) =>
      let warnings :=
        if negb (TestGraphUtil fingerprint_loaded fingerprint_valid)
        then [hsgr_warning]
        else [] in
      let '(header, input_file2) :=
        (header_checksum <- readInto_ref uint32 ;;
         header_number_of_nodes <- readInto_ref uint64 ;;
         header_number_of_edges <- readInto_ref uint64 ;;
         BOOST_ASSERT "number of nodes is zero" (negb (0 =? header_number_of_nodes)) ;;;
         ret {| checksum := header_checksum;
                number_of_nodes := header_number_of_nodes;
                number_of_edges := header_number_of_edges |}) input_file1 in
      (header, input_file2, warnings)
  | (Throw what, input_file1) => (Throw what, input_file1, [])
  | (AssertFail expr, input_file1) => (AssertFail expr, input_file1, [])
  | (OutOfBounds, input_file1) => (OutOfBounds, input_file1, [])
  end.

(** [inline void readEdges(File &, GeometryID *, ..., const std::uint64_t)].
    [i] is the loop counter and [turns] the number of turns left; the null
    checks on the pointers have no counterpart for lists. *)
Fixpoint readEdges_loop (turns i : nat) (out : EdgeLists) : IO EdgeLists :=
  match turns with
  | O => ret out
  | S turns' =>
      current_edge_data <- readInto_ref OriginalEdgeData ;;
      geometry_list' <- store_at (geometry_list out) i (via_geometry current_edge_data) ;;
      name_id_list' <- store_at (name_id_list out) i (name_id current_edge_data) ;;
      turn_instruction_list' <-
        store_at (turn_instruction_list out) i (turn_instruction current_edge_data) ;;
      lane_data_id_list' <- store_at (lane_data_id_list out) i (lane_data_id current_edge_data) ;;
      travel_mode_list' <- store_at (travel_mode_list out) i (travel_mode current_edge_data) ;;
      entry_class_id_list' <-
        store_at (entry_class_id_list out) i (entry_classid current_edge_data) ;;
      pre_turn_bearing_list' <-
        store_at (pre_turn_bearing_list out) i (pre_turn_bearing current_edge_data) ;;
      post_turn_bearing_list' <-
        store_at (post_turn_bearing_list out) i (post_turn_bearing current_edge_data) ;;
      readEdges_loop turns' (S i)
        {| geometry_list := geometry_list';
           name_id_list := name_id_list';
           turn_instruction_list := turn_instruction_list';
           lane_data_id_list := lane_data_id_list';
           travel_mode_list := travel_mode_list';
           entry_class_id_list := entry_class_id_list';
           pre_turn_bearing_list := pre_turn_bearing_list';
           post_turn_bearing_list := post_turn_bearing_list' |}
  end.

Definition readEdges (out : EdgeLists) (number_of_edges : uint64) : IO EdgeLists :=
  readEdges_loop (Z.to_nat number_of_edges) 0 out.

(** [template <typename OSMNodeIDVectorT> void readNodes(io::File &,
    util::Coordinate *, OSMNodeIDVectorT &, const std::uint64_t)] *)
Fixpoint readNodes_loop (turns i : nat) (coordinate_list : list Coordinate)
    (osmnodeid_list : list OSMNodeID) : IO (list Coordinate * list OSMNodeID) :=
  match turns with
  | O => ret (coordinate_list, osmnodeid_list)
  | S turns' =>
      current_node <- readInto_ref QueryNode ;;
      coordinate_list' <-
        store_at coordinate_list i
          {| coordinate_lon := lon current_node; coordinate_lat := lat current_node |} ;;
      let osmnodeid_list' := osmnodeid_list ++ [node_id current_node] in
      BOOST_ASSERT "coordinate_list[i].IsValid()"
        (from_option IsValid true (coordinate_list' !! i)) ;;;
      readNodes_loop turns' (S i) coordinate_list' osmnodeid_list'
  end.

Definition readNodes (coordinate_list : list Coordinate) (osmnodeid_list : list OSMNodeID)
    (number_of_coordinates : uint64) : IO (list Coordinate * list OSMNodeID) :=
  readNodes_loop (Z.to_nat number_of_coordinates) 0 coordinate_list osmnodeid_list.

(** The body of the loop of [readDatasourceNames]. *)
Definition push_name (d : DatasourceNamesData) (name : list byte) : DatasourceNamesData :=
  {| names := names d ++ name;
     offsets := offsets d ++ [length (names d)];
     lengths := lengths d ++ [length name] |}.

(** [inline DatasourceNamesData readDatasourceNames(io::File &)] *)
Definition readDatasourceNames (datasource_names_file : File) : DatasourceNamesData * File :=
  let datasource_names_data := {| names := []; offsets := []; lengths := [] |} in
  let '(lines, datasource_names_file') := readLines datasource_names_file in
  (foldl push_name datasource_names_data lines, datasource_names_file').

(** [readInto(dest, count)] into a caller's array of [T]: the first [count]
    elements are overwritten, the rest stays. *)
Definition readInto_array (T : Type) `{TriviallyCopyable T} (dest : list T) (count : Z)
  : IO (list T) := fun f =>
  if decide (Z.to_nat count <= length dest)%nat then
    (stored <- readInto T count ;;
     ret (array_of_bytes T (Z.to_nat count) stored ++ drop (Z.to_nat count) dest)) f
  else (OutOfBounds, f).

(** [inline void readHSGR(File &, NodeT *, const std::uint64_t, EdgeT *,
    const std::uint64_t)], for any two array entry types. *)
Definition readHSGR (NodeT EdgeT : Type) `{TriviallyCopyable NodeT} `{TriviallyCopyable EdgeT}
    (node_buffer : list NodeT) (number_of_nodes : uint64)
    (edge_buffer : list EdgeT) (number_of_edges : uint64) : IO (list NodeT * list EdgeT) :=
  node_buffer' <- readInto_array NodeT node_buffer number_of_nodes ;;
  edge_buffer' <- readInto_array EdgeT edge_buffer number_of_edges ;;
  ret (node_buffer', edge_buffer').

(** [inline void readProperties(File &, extractor::ProfileProperties *,
    const std::size_t)], for any layout of the properties record. *)
Definition readProperties (ProfileProperties : Type) `{TriviallyCopyable ProfileProperties}
    (properties : list ProfileProperties) (properties_size : Z)
  : IO (list ProfileProperties) :=
  readInto_array ProfileProperties properties properties_size.

(** [inline void readDatasourceIndexes(File &, uint8_t *, const std::uint64_t)] *)
Definition readDatasourceIndexes (datasource_buffer : list uint8)
    (number_of_datasource_indexes : uint64) : IO (list uint8) :=
  readInto_array uint8 datasource_buffer number_of_datasource_indexes.

(** [template <typename RTreeNodeT> void readRamIndex(File &, RTreeNodeT *,
    const std::uint64_t)] *)
Definition readRamIndex (RTreeNodeT : Type) `{TriviallyCopyable RTreeNodeT}
    (rtree_buffer : list RTreeNodeT) (tree_size : uint64) : IO (list RTreeNodeT) :=
  readInto_array RTreeNodeT rtree_buffer tree_size.

(** * Properties *)

(** ** The stream *)

Definition consume (f : File) (n : nat) : File :=
  with_stream f (advance (input_stream f) n).

(** [f] is in a good state and [bs] is what is left to read. *)
Definition holds (f : File) (bs : list byte) : Prop :=
  good (input_stream f) = true /\ unread (input_stream f) = bs.

Lemma to_signed64_size_t (x : Z) :
  0 <= x <= STREAMSIZE_MAX -> to_signed64 (size_t_wrap x) = x /\ size_t_wrap x = x.
Proof.
  intros Hx. unfold to_signed64, size_t_wrap, STREAMSIZE_MAX in *.
  rewrite Z.mod_small by lia.
  split; [|reflexivity].
  destruct (Z.leb_spec x (2 ^ 63 - 1)); lia.
Qed.

Lemma good_advance (s : ifstream) (n : nat) : good (advance s n) = good s.
Proof. reflexivity. Qed.

Lemma unread_advance (s : ifstream) (n : nat) : unread (advance s n) = drop n (unread s).
Proof. unfold unread, advance; simpl. by rewrite drop_drop. Qed.

Lemma istream_read_not_good (s : ifstream) (n : Z) :
  good s = false -> istream_read s n = ([], setstate s false true).
Proof. intros Hg. unfold istream_read. by rewrite Hg. Qed.

Lemma istream_read_enough (s : ifstream) (n : Z) :
  good s = true -> 0 <= n <= Z.of_nat (length (unread s)) ->
  istream_read s n = (take (Z.to_nat n) (unread s), advance s (Z.to_nat n)).
Proof.
  intros Hg Hn. unfold istream_read. rewrite Hg.
  rewrite length_take, Nat.min_l by lia.
  rewrite Z2Nat.id by lia. by rewrite Z.eqb_refl.
Qed.

Lemma istream_read_short (s : ifstream) (n : Z) :
  good s = true -> Z.of_nat (length (unread s)) < n ->
  istream_read s n =
    (unread s, setstate (advance s (length (unread s))) true true).
Proof.
  intros Hg Hn. unfold istream_read. rewrite Hg.
  rewrite take_ge by lia.
  destruct (Z.eqb_spec (Z.of_nat (length (unread s))) n); [lia | reflexivity].
Qed.

Lemma consume_holds (f : File) (bs rest : list byte) :
  holds f (bs ++ rest) -> holds (consume f (length bs)) rest.
Proof.
  intros [Hg Hu]. split; simpl.
  - by rewrite good_advance.
  - rewrite unread_advance, Hu. by rewrite drop_app_length.
Qed.

Lemma consume_consume (f : File) (a b : nat) :
  consume (consume f a) b = consume f (a + b).
Proof.
  unfold consume, with_stream, advance; simpl. by rewrite Nat.add_assoc.
Qed.

Lemma consume_0 (f : File) : consume f 0 = f.
Proof.
  destruct f as [name [bs off e fl]]. unfold consume, with_stream, advance; simpl.
  by rewrite Nat.add_0_r.
Qed.

Lemma string_app_inj (p a b : string) : p +:+ a = p +:+ b -> a = b.
Proof. induction p as [|c p IH]; simpl; [done | intros [= H]; auto]. Qed.

(** ** [File::readInto] *)

Lemma readInto_zero (T : Type) `{TriviallyCopyable T} (f : File) :
  readInto T 0 f = (Ok [], f).
Proof. reflexivity. Qed.

Lemma readInto_enough (T : Type) `{TriviallyCopyable T} (count : Z) (f : File) :
  good (input_stream f) = true ->
  0 < count -> count * sizeof T <= STREAMSIZE_MAX ->
  count * sizeof T <= Z.of_nat (length (unread (input_stream f))) ->
  readInto T count f =
    (Ok (take (Z.to_nat (count * sizeof T)) (unread (input_stream f))),
     consume f (Z.to_nat (count * sizeof T))).
Proof.
  intros Hg Hc Hmax Hlen. unfold readInto.
  pose proof (sizeof_bounds (T:=T)) as Hs.
  assert (0 < count * sizeof T) as Hpos by nia.
  destruct (to_signed64_size_t (count * sizeof T)) as [-> ->]; [lia|].
  destruct (Z.eqb_spec count 0); [lia|].
  rewrite istream_read_enough by (done || lia).
  rewrite length_take, Nat.min_l by lia.
  rewrite Z2Nat.id by lia.
  destruct (Z.eqb_spec (count * sizeof T) 0); [lia|].
  destruct (Z.ltb_spec (count * sizeof T) (count * sizeof T)); [lia|].
  reflexivity.
Qed.

Lemma readInto_ref_holds (T : Type) `{TriviallyCopyable T} (f : File) (bs rest : list byte) :
  holds f (bs ++ rest) -> Z.of_nat (length bs) = sizeof T ->
  readInto_ref T f = (Ok (from_bytes T bs), consume f (length bs)).
Proof.
  intros [Hg Hu] Hlen. unfold readInto_ref, bind.
  pose proof (sizeof_bounds (T:=T)) as Hs.
  rewrite readInto_enough; [| done | lia | lia |].
  - rewrite Hu, Z.mul_1_l, <- Hlen, Nat2Z.id, take_app_length. reflexivity.
  - rewrite Hu, length_app. lia.
Qed.

Lemma readInto_ref_unread (T : Type) `{TriviallyCopyable T} (f : File) :
  good (input_stream f) = true ->
  (Z.to_nat (sizeof T) <= length (unread (input_stream f)))%nat ->
  readInto_ref T f =
    (Ok (from_bytes T (take (Z.to_nat (sizeof T)) (unread (input_stream f)))),
     consume f (Z.to_nat (sizeof T))).
Proof.
  intros Hg Hlen. pose proof (sizeof_bounds (T:=T)) as Hs.
  rewrite (readInto_ref_holds T f (take (Z.to_nat (sizeof T)) (unread (input_stream f)))
             (drop (Z.to_nat (sizeof T)) (unread (input_stream f)))).
  - rewrite length_take, Nat.min_l by done. reflexivity.
  - split; [done|]. by rewrite take_drop.
  - rewrite length_take. lia.
Qed.

Lemma readOne_holds (T : Type) `{TriviallyCopyable T} (f : File) (bs rest : list byte) :
  holds f (bs ++ rest) -> Z.of_nat (length bs) = sizeof T ->
  readOne T f = (Ok (from_bytes T bs), consume f (length bs)).
Proof.
  intros Hf Hlen. unfold readOne, bind.
  by rewrite (readInto_ref_holds T f bs rest).
Qed.

Lemma readInto_short (T : Type) `{TriviallyCopyable T} (K : Z) (f : File) :
  0 < K -> K * sizeof T <= STREAMSIZE_MAX ->
  Z.of_nat (length (unread (input_stream f))) < K * sizeof T ->
  exists f',
    readInto T K f =
      (Throw (if negb (good (input_stream f)) || (length (unread (input_stream f)) =? 0)%nat
              then "Error reading from " +:+ filename f +:+ ": " +:+ strerror_errno
              else "Error reading from " +:+ filename f +:+ ": Unexpected end of file"),
       f').
Proof.
  intros HK Hmax Hshort. unfold readInto.
  pose proof (sizeof_bounds (T:=T)) as Hs.
  assert (0 < K * sizeof T) as Hpos by nia.
  destruct (to_signed64_size_t (K * sizeof T)) as [-> ->]; [lia|].
  destruct (Z.eqb_spec K 0); [lia|].
  destruct (good (input_stream f)) eqn:Hg; simpl.
  - rewrite istream_read_short by done.
    destruct (Nat.eqb_spec (length (unread (input_stream f))) 0) as [Hz|Hz].
    + rewrite Hz. simpl. eauto.
    + destruct (Z.eqb_spec (Z.of_nat (length (unread (input_stream f)))) 0); [lia|].
      destruct (Z.ltb_spec (Z.of_nat (length (unread (input_stream f))))
                  (K * sizeof T)); [eauto | lia].
  - rewrite istream_read_not_good by done. simpl. eauto.
Qed.

(** C1 (as amended).  A [readInto] for [K > 0] objects whose byte count
    [K * sizeof(T)] is a [streamsize] (at most [2^63 - 1], so that the product
    in [std::size_t] does not wrap), on a stream with fewer than
    [K * sizeof(T)] bytes left, throws and returns no buffer.  When no byte at
    all could be read the message ends in the text of [errno], otherwise in
    "Unexpected end of file", and the two messages differ (as long as the
    operating system has no error of that very name).  A [readInto] for zero
    objects returns at once and leaves the file as it was. *)
Theorem readInto_short_read (T : Type) `{TriviallyCopyable T} (K : Z) (f : File) :
  0 < K -> K * sizeof T <= STREAMSIZE_MAX ->
  Z.of_nat (length (unread (input_stream f))) < K * sizeof T ->
  strerror_errno <> "Unexpected end of file" ->
  let nothing_read :=
    negb (good (input_stream f)) || (length (unread (input_stream f)) =? 0)%nat in
  let at_end := "Error reading from " +:+ filename f +:+ ": " +:+ strerror_errno in
  let truncated := "Error reading from " +:+ filename f +:+ ": Unexpected end of file" in
  (exists f', readInto T K f = (Throw (if nothing_read then at_end else truncated), f'))
  /\ at_end <> truncated
  /\ readInto T 0 f = (Ok [], f).
Proof.
  intros HK Hmax Hshort Herrno nothing_read at_end truncated.
  split; [| split].
  - by apply readInto_short.
  - subst at_end truncated. intros Heq.
    do 2 apply string_app_inj in Heq.
    simpl in Heq. injection Heq as Heq. done.
  - reflexivity.
Qed.

(** ** The constructor and the fingerprint *)

Lemma readAndCheckFingerprint_holds (f : File) (fp_bytes rest : list byte) :
  holds f (fp_bytes ++ rest) -> Z.of_nat (length fp_bytes) = sizeof FingerPrint ->
  readAndCheckFingerprint f =
    (Ok (let loaded := from_bytes FingerPrint fp_bytes in
         IsMagicNumberOK GetValid loaded && TestContractor GetValid loaded &&
         TestGraphUtil GetValid loaded && TestRTree GetValid loaded &&
         TestQueryObjects GetValid loaded),
     consume f (length fp_bytes)).
Proof.
  intros Hf Hlen. unfold readAndCheckFingerprint, bind.
  by rewrite (readOne_holds FingerPrint f fp_bytes rest).
Qed.

(** A file too short for a fingerprint fails the checked open as well, on the
    read. *)
Lemma File_open_truncated_fingerprint (fs : gmap string (list byte)) (path : string)
    (content : list byte) :
  fs !! path = Some content ->
  Z.of_nat (length content) < sizeof FingerPrint ->
  exists what, File_open fs path true = Throw what.
Proof.
  intros Hfs Hlen. unfold File_open. rewrite Hfs.
  unfold readAndCheckFingerprint, readOne, readInto_ref, bind.
  pose proof (sizeof_bounds (T:=FingerPrint)) as Hs.
  destruct (readInto_short FingerPrint 1
              {| filename := path; input_stream := ifstream_open content |})
    as [f' ->];
    [lia | lia | unfold unread, ifstream_open; cbn [input_stream offset bytes];
                 rewrite drop_0; lia |].
  eauto.
Qed.

(** C2.  Opening with [check_fingerprint] a file that starts with a
    fingerprint record reads that one record; the open succeeds, leaving the
    handle just behind the record, when the magic number and the four version
    markers (graph-construction, contraction, spatial-index, query-object) all
    equal those of the running build, and throws "Fingerprint mismatch in
    <path>" in every other case; in particular whenever the magic number
    differs, whatever the other fields are. *)
Theorem File_open_fingerprint (fs : gmap string (list byte)) (path : string)
    (fp_bytes rest : list byte) :
  fs !! path = Some (fp_bytes ++ rest) ->
  Z.of_nat (length fp_bytes) = sizeof FingerPrint ->
  let loaded := from_bytes FingerPrint fp_bytes in
  let same_build :=
    magic_number loaded = magic_number GetValid /\
    graph_construction loaded = graph_construction GetValid /\
    contraction loaded = contraction GetValid /\
    spatial_index loaded = spatial_index GetValid /\
    query_object loaded = query_object GetValid in
  let opened := {| filename := path; input_stream := ifstream_open (fp_bytes ++ rest) |} in
  (same_build -> File_open fs path true = Ok (consume opened (length fp_bytes)))
  /\ (~ same_build -> File_open fs path true = Throw ("Fingerprint mismatch in " +:+ path))
  /\ (magic_number loaded <> magic_number GetValid ->
      File_open fs path true = Throw ("Fingerprint mismatch in " +:+ path)).
Proof.
  intros Hfs Hlen loaded same_build opened.
  assert (holds opened (fp_bytes ++ rest)) as Hopened by done.
  assert (File_open fs path true =
          if IsMagicNumberOK GetValid loaded && TestContractor GetValid loaded &&
             TestGraphUtil GetValid loaded && TestRTree GetValid loaded &&
             TestQueryObjects GetValid loaded
          then Ok (consume opened (length fp_bytes))
          else Throw ("Fingerprint mismatch in " +:+ path)) as ->.
  { unfold File_open. rewrite Hfs.
    fold opened. rewrite (readAndCheckFingerprint_holds opened fp_bytes rest) by done.
    fold loaded. by destruct (_ && _). }
  unfold IsMagicNumberOK, TestContractor, TestGraphUtil, TestRTree, TestQueryObjects.
  subst same_build.
  repeat match goal with
         | |- context [Z.eqb ?a ?b] => destruct (Z.eqb_spec a b)
         end; simpl; repeat split; intros; try done; try lia; exfalso; intuition congruence.
Qed.

(** ** [File::deserializeVector] *)

Lemma le_decode_nonneg (bs : list byte) : 0 <= le_decode bs.
Proof.
  induction bs as [|b bs IH]; simpl; [lia|].
  pose proof (byte_to_Z_range b). lia.
Qed.

Lemma array_of_bytes_length (T : Type) `{TriviallyCopyable T} (n : nat) (bs : list byte) :
  length (array_of_bytes T n bs) = n.
Proof. revert bs. induction n as [|n IH]; intros bs; simpl; [done | by rewrite IH]. Qed.

Lemma array_of_bytes_to_bytes (T : Type) `{ObjectRepresentation T} (n : nat) (bs : list byte) :
  Z.of_nat (length bs) = Z.of_nat n * sizeof T ->
  concat (to_bytes T <$> array_of_bytes T n bs) = bs.
Proof.
  pose proof (sizeof_bounds (T:=T)) as Hs.
  revert bs. induction n as [|n IH]; intros bs Hlen; simpl.
  - destruct bs; [done | simpl in Hlen; lia].
  - rewrite to_from_bytes by (rewrite length_take; lia).
    rewrite IH by (rewrite length_drop; lia).
    apply take_drop.
Qed.

Lemma vector_resize_length (T : Type) `{TriviallyCopyable T} (data : list T) (count : Z) (f : File) :
  0 <= count <= max_size T ->
  exists resized,
    vector_resize T data count f = (Ok resized, f) /\ length resized = Z.to_nat count.
Proof.
  intros Hc. unfold vector_resize.
  destruct (Z.gtb_spec count (max_size T)); [lia|].
  eexists; split; [reflexivity|].
  rewrite length_app, length_take, length_replicate. lia.
Qed.

(** C5.  On a file in which an 8-byte count [N] is followed by [N] records of
    [sizeof(T)] bytes, [deserializeVector] succeeds (for [N = 0] too, with the
    empty vector): the vector holds exactly [N] elements, their object
    representations laid end to end are the record bytes of the file, and the
    handle has moved over the count and over [N * sizeof(T)] bytes, the same
    [N] that sized the vector. *)
Theorem deserializeVector_length_prefixed (T : Type) `{ObjectRepresentation T}
    (data : list T) (f : File) (count_bytes records rest : list byte) :
  holds f (count_bytes ++ records ++ rest) ->
  length count_bytes = 8%nat ->
  Z.of_nat (length records) = le_decode count_bytes * sizeof T ->
  Z.of_nat (length (bytes (input_stream f))) <= STREAMSIZE_MAX ->
  let N := le_decode count_bytes in
  exists data',
    deserializeVector T data f = (Ok data', consume f (8 + length records))
    /\ Z.of_nat (length data') = N
    /\ concat (to_bytes T <$> data') = records
    /\ data' = array_of_bytes T (Z.to_nat N) records.
Proof.
  intros Hf Hcount Hrecords Hsize N.
  pose proof (sizeof_bounds (T:=T)) as Hs.
  pose proof (le_decode_nonneg count_bytes) as HN. fold N in HN, Hrecords.
  assert (N * sizeof T <= STREAMSIZE_MAX) as Hfits.
  { destruct Hf as [_ Hu]. unfold unread in Hu.
    apply (f_equal length) in Hu. rewrite length_drop, !length_app in Hu. lia. }
  assert (N <= max_size T) as Hmax.
  { unfold max_size. apply Z.div_le_lower_bound; lia. }
  unfold deserializeVector, readElementCount64, bind.
  rewrite (readOne_holds uint64 f count_bytes (records ++ rest)); [| done | by rewrite Hcount].
  apply consume_holds in Hf.
  change (from_bytes uint64 count_bytes) with N.
  destruct (vector_resize_length T data N (consume f (length count_bytes)))
    as (resized & -> & Hresized); [lia|].
  rewrite Hresized.
  exists (array_of_bytes T (Z.to_nat N) records).
  assert (length records = Z.to_nat (N * sizeof T)) as Hrec by lia.
  split; [| split; [| split]].
  - destruct (Z.eq_dec N 0) as [HN0 | HN0].
    + rewrite HN0, readInto_zero. unfold ret.
      rewrite HN0, Z.mul_0_l in Hrecords.
      destruct records; [| simpl in Hrecords; lia].
      simpl. rewrite Hcount. reflexivity.
    + destruct Hf as [Hg Hu].
      rewrite readInto_enough; [| done | lia | lia | rewrite Hu, length_app; lia].
      rewrite Hu, <- Hrec, take_app_length, consume_consume, Hcount. reflexivity.
  - rewrite array_of_bytes_length. lia.
  - apply array_of_bytes_to_bytes. lia.
  - reflexivity.
Qed.

(** ** [File::skip] *)

(** The states a handle is in between two calls: good, or failed by a read
    that ran into the end of the file and so stands at or behind that end. *)
Definition settled (s : ifstream) : Prop :=
  good s = true \/ (length (bytes s) <= offset s)%nat.

(** The stream of [s] as a handle opened afresh would have it at [position]. *)
Definition fresh_at (f : File) (position : nat) : File :=
  {| filename := filename f;
     input_stream := {| bytes := bytes (input_stream f); offset := position;
                        eofbit := false; failbit := false |} |}.

Lemma skip_in_range (T : Type) `{TriviallyCopyable T} (n : Z) (f : File) :
  0 <= n -> Z.of_nat (offset (input_stream f)) + n * sizeof T <= STREAMSIZE_MAX ->
  skip T n f =
    {| filename := filename f;
       input_stream :=
         {| bytes := bytes (input_stream f);
            offset := offset (input_stream f) + Z.to_nat (n * sizeof T);
            eofbit := eofbit (input_stream f);
            failbit := failbit (input_stream f) |} |}.
Proof.
  intros Hn Hmax. pose proof (sizeof_bounds (T:=T)) as Hs.
  assert (0 <= n * sizeof T) as Hpos by nia.
  unfold skip, seek_cur, with_stream.
  destruct (to_signed64_size_t (n * sizeof T)) as [-> _]; [lia|].
  destruct (Z.leb_spec 0 (Z.of_nat (offset (input_stream f)) + n * sizeof T)); [|lia].
  destruct (Z.leb_spec (Z.of_nat (offset (input_stream f)) + n * sizeof T) STREAMSIZE_MAX);
    [|lia].
  simpl. do 2 f_equal. lia.
Qed.

Lemma istream_read_settled (s : ifstream) (n : Z) :
  0 <= n -> settled s -> settled (istream_read s n).2.
Proof.
  intros Hn Hs.
  destruct (good s) eqn:Hg.
  - destruct (Z_le_gt_dec n (Z.of_nat (length (unread s)))) as [Hle|Hgt].
    + rewrite istream_read_enough by (done || lia). by left.
    + rewrite istream_read_short by (done || lia). right. simpl.
      unfold unread. rewrite length_drop. lia.
  - rewrite istream_read_not_good by done.
    destruct Hs as [Hs|Hs]; [congruence | by right].
Qed.

Lemma readInto_settled (T : Type) `{TriviallyCopyable T} (count : Z) (f : File) :
  0 <= count -> count * sizeof T <= STREAMSIZE_MAX ->
  settled (input_stream f) -> settled (input_stream (readInto T count f).2).
Proof.
  intros Hc Hmax Hf. unfold readInto.
  pose proof (sizeof_bounds (T:=T)) as Hs.
  assert (0 <= count * sizeof T) as Hpos by nia.
  destruct (to_signed64_size_t (count * sizeof T)) as [-> ->]; [lia|].
  destruct (count =? 0); [done|].
  pose proof (istream_read_settled (input_stream f) (count * sizeof T) Hpos Hf) as Hs'.
  destruct (istream_read (input_stream f) (count * sizeof T)) as [stored s'].
  destruct (_ =? 0); [done|]. by destruct (_ <? _).
Qed.

Lemma skip_settled (T : Type) `{TriviallyCopyable T} (n : Z) (f : File) :
  0 <= n -> Z.of_nat (offset (input_stream f)) + n * sizeof T <= STREAMSIZE_MAX ->
  settled (input_stream f) -> settled (input_stream (skip T n f)).
Proof.
  intros Hn Hmax Hf. rewrite skip_in_range by done.
  destruct Hf as [Hf|Hf]; [by left | right; simpl; lia].
Qed.

Lemma readInto_at_end (T : Type) `{TriviallyCopyable T} (K : Z) (f : File) :
  K <> 0 ->
  good (input_stream f) = false \/ unread (input_stream f) = [] ->
  (readInto T K f).1 =
    Throw ("Error reading from " +:+ filename f +:+ ": " +:+ strerror_errno).
Proof.
  intros HK Hend. unfold readInto.
  destruct (Z.eqb_spec K 0); [done|].
  unfold istream_read.
  destruct (good (input_stream f)) eqn:Hg.
  - destruct Hend as [Hend | ->]; [done|].
    rewrite take_nil.
    by destruct (Z.of_nat (length []) =? to_signed64 _).
  - reflexivity.
Qed.

(** C8.  For a skip that stays within the range of file offsets, on a handle
    in any state it can be in between two calls: [skip<T>(n)] moves the
    position by [n * sizeof(T)] and does nothing else, whether or not that is
    behind the end of the file; a [readInto] after it gives what the same
    [readInto] gives on a handle opened afresh and placed [n * sizeof(T)] bytes
    behind the old position, and on a good handle leaves the same state too;
    reading [n] objects, where that succeeds, leaves the handle exactly where
    skipping them does; and behind a skip to or past the end of the file it is
    the read that throws. *)
Theorem skip_then_readInto (T : Type) `{TriviallyCopyable T} (n K : Z) (f : File) :
  0 <= n ->
  Z.of_nat (offset (input_stream f)) + n * sizeof T <= STREAMSIZE_MAX ->
  settled (input_stream f) ->
  let target := (offset (input_stream f) + Z.to_nat (n * sizeof T))%nat in
  skip T n f = with_stream f
                 {| bytes := bytes (input_stream f); offset := target;
                    eofbit := eofbit (input_stream f);
                    failbit := failbit (input_stream f) |}
  /\ (readInto T K (skip T n f)).1 = (readInto T K (fresh_at f target)).1
  /\ (good (input_stream f) = true ->
      readInto T K (skip T n f) = readInto T K (fresh_at f target))
  /\ (forall stored f1, readInto T n f = (Ok stored, f1) -> f1 = skip T n f)
  /\ ((length (bytes (input_stream f)) <= target)%nat -> K <> 0 ->
      exists what, (readInto T K (skip T n f)).1 = Throw what).
Proof.
  intros Hn Hmax Hf target.
  pose proof (sizeof_bounds (T:=T)) as Hs.
  assert (good (input_stream f) = true -> skip T n f = fresh_at f target) as Hfresh.
  { intros Hg. rewrite skip_in_range by done. unfold fresh_at. fold target.
    unfold good in Hg. apply andb_prop in Hg as [He Hl].
    apply negb_true_iff in He, Hl. by rewrite He, Hl. }
  split; [by apply skip_in_range|].
  split; [| split; [| split]].
  - destruct (good (input_stream f)) eqn:Hg; [by rewrite Hfresh|].
    destruct Hf as [Hf|Hf]; [congruence|].
    destruct (Z.eq_dec K 0) as [->|HK]; [done|].
    rewrite !readInto_at_end; try done.
    + right. unfold fresh_at, unread; simpl. apply drop_ge. lia.
    + left. by rewrite skip_in_range.
  - intros Hg. by rewrite Hfresh.
  - intros stored f1 Hread.
    destruct (Z.eq_dec n 0) as [->|Hn0].
    + rewrite readInto_zero in Hread. injection Hread as _ <-.
      rewrite skip_in_range by done. destruct f as [name [bs off e fl]]; simpl.
      do 2 f_equal. lia.
    + destruct (good (input_stream f)) eqn:Hg.
      * destruct (Z_le_gt_dec (n * sizeof T) (Z.of_nat (length (unread (input_stream f)))))
          as [Hle|Hgt].
        -- rewrite readInto_enough in Hread; [| done | lia | lia | done].
           injection Hread as _ <-. rewrite skip_in_range by done.
           unfold good in Hg. apply andb_prop in Hg as [He Hl].
           apply negb_true_iff in He, Hl.
           unfold consume, with_stream, advance. by rewrite He, Hl.
        -- destruct (readInto_short T n f) as [f' Hthrow]; [lia | lia | lia |].
           congruence.
      * pose proof (readInto_at_end T n f Hn0 (or_introl Hg)) as Hthrow.
        rewrite Hread in Hthrow. done.
  - intros Hend HK. eexists. apply readInto_at_end; [done|].
    destruct (good (input_stream (skip T n f))) eqn:Hg; [right | by left].
    rewrite skip_in_range by done. unfold unread; simpl. apply drop_ge. fold target. lia.
Qed.

(** ** [readHSGRHeader] *)

(** The header held by the twenty bytes behind the fingerprint. *)
Definition header_of (checksum_bytes nodes_bytes edges_bytes : list byte) : HSGRHeader :=
  {| checksum := le_decode checksum_bytes;
     number_of_nodes := le_decode nodes_bytes;
     number_of_edges := le_decode edges_bytes |}.

Lemma readHSGRHeader_holds (f : File)
    (fp_bytes checksum_bytes nodes_bytes edges_bytes rest : list byte) :
  holds f (fp_bytes ++ checksum_bytes ++ nodes_bytes ++ edges_bytes ++ rest) ->
  Z.of_nat (length fp_bytes) = sizeof FingerPrint ->
  length checksum_bytes = 4%nat -> length nodes_bytes = 8%nat -> length edges_bytes = 8%nat ->
  readHSGRHeader f =
    (if negb assertions_disabled && (0 =? le_decode nodes_bytes)
     then AssertFail "number of nodes is zero"
     else Ok (header_of checksum_bytes nodes_bytes edges_bytes),
     consume f (length fp_bytes + 20),
     if TestGraphUtil (from_bytes FingerPrint fp_bytes) GetValid then [] else [hsgr_warning]).
Proof.
  intros Hf Hfp Hc Hn He. unfold readHSGRHeader.
  rewrite (readOne_holds FingerPrint f fp_bytes _ Hf Hfp).
  apply consume_holds in Hf.
  unfold bind.
  rewrite (readInto_ref_holds uint32 _ checksum_bytes _ Hf) by (by rewrite Hc).
  apply consume_holds in Hf.
  rewrite (readInto_ref_holds uint64 _ nodes_bytes _ Hf) by (by rewrite Hn).
  apply consume_holds in Hf.
  rewrite (readInto_ref_holds uint64 _ edges_bytes _ Hf) by (by rewrite He).
  rewrite !consume_consume, Hc, Hn, He.
  replace (length fp_bytes + 4 + 8 + 8)%nat with (length fp_bytes + 20)%nat by lia.
  change (from_bytes uint64 nodes_bytes) with (le_decode nodes_bytes).
  unfold BOOST_ASSERT, ret, header_of.
  destruct assertions_disabled, (0 =? le_decode nodes_bytes), (TestGraphUtil _ _); reflexivity.
Qed.

(** C3 (as amended).  On a file that holds a fingerprint and the twenty header
    bytes, a node count of zero stops [readHSGRHeader] with the assertion
    "number of nodes is zero" where assertions are compiled in, whatever the
    edge count is, and is returned like any other header where they are
    compiled out; a header with a positive node count is returned
    in either build, with an edge count of zero as with any other. *)
Theorem readHSGRHeader_node_count (f : File)
    (fp_bytes checksum_bytes nodes_bytes edges_bytes rest : list byte) :
  holds f (fp_bytes ++ checksum_bytes ++ nodes_bytes ++ edges_bytes ++ rest) ->
  Z.of_nat (length fp_bytes) = sizeof FingerPrint ->
  length checksum_bytes = 4%nat -> length nodes_bytes = 8%nat -> length edges_bytes = 8%nat ->
  let header := header_of checksum_bytes nodes_bytes edges_bytes in
  (number_of_nodes header = 0 ->
   (readHSGRHeader f).1.1 =
     if assertions_disabled then Ok header else AssertFail "number of nodes is zero")
  /\ (number_of_nodes header <> 0 -> (readHSGRHeader f).1.1 = Ok header)
  /\ (number_of_nodes header <> 0 -> number_of_edges header = 0 ->
      exists header', (readHSGRHeader f).1.1 = Ok header' /\ number_of_edges header' = 0).
Proof.
  intros Hf Hfp Hc Hn He header.
  rewrite (readHSGRHeader_holds f fp_bytes checksum_bytes nodes_bytes edges_bytes rest)
    by done.
  fold header.
  change (number_of_nodes header) with (le_decode nodes_bytes).
  cbn [fst].
  destruct (Z.eqb_spec 0 (le_decode nodes_bytes)) as [Hz|Hz].
  - split; [| split]; [| intros; lia ..].
    intros _. by destruct assertions_disabled.
  - rewrite andb_false_r.
    split; [| split]; [intros; lia | done |].
    intros _ Hedges. by exists header.
Qed.


(** ** [readEdges] *)

Lemma readInto_ok_inv (T : Type) `{TriviallyCopyable T} (count : Z) (f f1 : File)
    (stored : list byte) :
  0 < count -> count * sizeof T <= STREAMSIZE_MAX ->
  readInto T count f = (Ok stored, f1) ->
  good (input_stream f) = true
  /\ count * sizeof T <= Z.of_nat (length (unread (input_stream f)))
  /\ stored = take (Z.to_nat (count * sizeof T)) (unread (input_stream f))
  /\ f1 = consume f (Z.to_nat (count * sizeof T)).
Proof.
  intros Hc Hmax Hread.
  destruct (good (input_stream f)) eqn:Hg.
  - destruct (Z_le_gt_dec (count * sizeof T) (Z.of_nat (length (unread (input_stream f)))))
      as [Hle|Hgt].
    + rewrite readInto_enough in Hread by (done || lia).
      by injection Hread as <- <-.
    + destruct (readInto_short T count f) as [f' Hthrow]; [lia | lia | lia |].
      congruence.
  - assert (count <> 0) as Hc0 by lia.
    pose proof (readInto_at_end T count f Hc0 (or_introl Hg)) as Hthrow.
    rewrite Hread in Hthrow. done.
Qed.

Lemma readInto_ref_ok_inv (T : Type) `{TriviallyCopyable T} (f f1 : File) (x : T) :
  readInto_ref T f = (Ok x, f1) ->
  let size := Z.to_nat (sizeof T) in
  good (input_stream f) = true
  /\ (size <= length (unread (input_stream f)))%nat
  /\ x = from_bytes T (take size (unread (input_stream f)))
  /\ f1 = consume f size.
Proof.
  intros Hread size. pose proof (sizeof_bounds (T:=T)) as Hs.
  unfold readInto_ref, bind in Hread.
  destruct (readInto T 1 f) as [[stored| | |] f1'] eqn:Hinto; try done.
  apply readInto_ok_inv in Hinto as (Hg & Hlen & -> & ->); [| lia | lia].
  injection Hread as <- <-. rewrite Z.mul_1_l in *.
  repeat split; [done | subst size; lia].
Qed.

Lemma store_at_ok_inv {A} (buf buf' : list A) (i : nat) (v : A) (f f' : File) :
  store_at buf i v f = (Ok buf', f') ->
  (i < length buf)%nat /\ buf' = <[i:=v]> buf /\ f' = f.
Proof.
  unfold store_at. destruct (decide (i < length buf)%nat); [|done].
  by intros [= <- <-].
Qed.

(** [buf'] is [buf] with [values] stored from index [i] on. *)
Definition stored_from {A} (buf buf' : list A) (i : nat) (values : list A) : Prop :=
  length buf' = length buf
  /\ buf' = take i buf ++ values ++ drop (i + length values) buf.

Lemma stored_from_step {A} (buf buf' : list A) (i : nat) (v : A) (values : list A) :
  (i < length buf)%nat ->
  stored_from (<[i:=v]> buf) buf' (S i) values ->
  stored_from buf buf' i (v :: values).
Proof.
  intros Hi [Hlen ->]. rewrite length_insert in Hlen.
  split; [done|].
  rewrite (take_S_r _ _ v) by (by apply list_lookup_insert_eq).
  rewrite take_insert_ge by lia.
  rewrite drop_insert_lt by lia.
  replace (i + length (v :: values))%nat with (S i + length values)%nat by (simpl; lia).
  by rewrite <- app_assoc.
Qed.

Lemma stored_from_nil {A} (buf : list A) (i : nat) : stored_from buf buf i [].
Proof. split; [done|]. simpl. by rewrite Nat.add_0_r, take_drop. Qed.

Lemma stored_from_start {A} (buf buf' : list A) (values : list A) :
  stored_from buf buf' 0 values ->
  length buf' = length buf
  /\ take (length values) buf' = values
  /\ drop (length values) buf' = drop (length values) buf.
Proof.
  intros [Hlen Hbuf]. simpl in Hbuf. subst buf'.
  by rewrite take_app_length, drop_app_length.
Qed.

Lemma column_lookup {A B} (g : A -> B) (buf' : list B) (records : list A) (i : nat) (r : A) :
  take (length records) buf' = g <$> records ->
  records !! i = Some r -> buf' !! i = Some (g r).
Proof.
  intros Htake Hr.
  assert (take (length records) buf' !! i = Some (g r)) as Hi
    by (by rewrite Htake, list_lookup_fmap, Hr).
  by apply lookup_take_Some in Hi as [Hi _].
Qed.

Lemma bind_ok_inv {A B} (m : IO A) (k : A -> IO B) (f f' : File) (b : B) :
  bind m k f = (Ok b, f') ->
  exists a f1, m f = (Ok a, f1) /\ k a f1 = (Ok b, f').
Proof.
  unfold bind. destruct (m f) as [[a| | |] f1]; try done. eauto.
Qed.

Lemma unread_consume (f : File) (n : nat) :
  unread (input_stream (consume f n)) = drop n (unread (input_stream f)).
Proof. apply unread_advance. Qed.

Lemma readEdges_loop_ok (turns : nat) :
  forall (i : nat) (out out' : EdgeLists) (f f' : File),
    readEdges_loop turns i out f = (Ok out', f') ->
    let size := Z.to_nat (sizeof OriginalEdgeData) in
    let records := array_of_bytes OriginalEdgeData turns (unread (input_stream f)) in
    (turns * size <= length (unread (input_stream f)))%nat
    /\ f' = consume f (turns * size)
    /\ stored_from (geometry_list out) (geometry_list out') i (via_geometry <$> records)
    /\ stored_from (name_id_list out) (name_id_list out') i (name_id <$> records)
    /\ stored_from (turn_instruction_list out) (turn_instruction_list out') i
         (turn_instruction <$> records)
    /\ stored_from (lane_data_id_list out) (lane_data_id_list out') i
         (lane_data_id <$> records)
    /\ stored_from (travel_mode_list out) (travel_mode_list out') i (travel_mode <$> records)
    /\ stored_from (entry_class_id_list out) (entry_class_id_list out') i
         (entry_classid <$> records)
    /\ stored_from (pre_turn_bearing_list out) (pre_turn_bearing_list out') i
         (pre_turn_bearing <$> records)
    /\ stored_from (post_turn_bearing_list out) (post_turn_bearing_list out') i
         (post_turn_bearing <$> records).
Proof.
  induction turns as [|turns IH]; intros i out out' f f' Hloop size records.
  - injection Hloop as <- <-. rewrite consume_0.
    split; [simpl; lia|]. split; [done|].
    split_and!; apply stored_from_nil.
  - cbn [readEdges_loop] in Hloop.
    apply bind_ok_inv in Hloop as (current & f1 & Hread & Hloop).
    apply readInto_ref_ok_inv in Hread as (Hg & Hlen & -> & ->). fold size in Hlen.
    repeat match type of Hloop with
           | bind (store_at _ _ _) _ _ = _ =>
               let buf := fresh "buf" in
               let fx := fresh "fx" in
               let Hst := fresh "Hstore" in
               apply bind_ok_inv in Hloop as (buf & fx & Hst & Hloop);
               apply store_at_ok_inv in Hst as (Hst & -> & ->)
           end.
    apply IH in Hloop as (Hrest & -> & Hcols).
    rewrite unread_consume in Hrest, Hcols.
    rewrite length_drop in Hrest.
    cbn [geometry_list name_id_list turn_instruction_list lane_data_id_list
         travel_mode_list entry_class_id_list pre_turn_bearing_list
         post_turn_bearing_list] in Hcols.
    split; [fold size; lia|].
    split; [rewrite consume_consume; f_equal; fold size; lia|].
    subst records. cbn [array_of_bytes fmap list_fmap]. fold size.
    destruct Hcols as (? & ? & ? & ? & ? & ? & ? & ?).
    split_and!; by apply stored_from_step.
Qed.

Lemma store_at_in_range {A} (buf : list A) (i : nat) (v : A) (f : File) :
  (i < length buf)%nat -> store_at buf i v f = (Ok (<[i:=v]> buf), f).
Proof. intros Hi. unfold store_at. by destruct (decide (i < length buf)%nat). Qed.

(** [readEdges] does succeed where the file holds the records and each list
    has room for them. *)
Lemma readEdges_loop_succeeds (turns : nat) :
  forall (i : nat) (out : EdgeLists) (f : File),
    good (input_stream f) = true ->
    (turns * Z.to_nat (sizeof OriginalEdgeData) <= length (unread (input_stream f)))%nat ->
    Forall (fun n => (i + turns <= n)%nat) (edge_list_lengths out) ->
    exists out' f', readEdges_loop turns i out f = (Ok out', f').
Proof.
  induction turns as [|turns IH]; intros i out f Hg Hbytes Hroom; [by eexists _, _|].
  cbn [readEdges_loop]. unfold bind at 1.
  rewrite readInto_ref_unread by (done || lia).
  unfold edge_list_lengths in Hroom.
  repeat match goal with
         | H : Forall _ (_ :: _) |- _ => apply Forall_cons in H as [? H]
         end.
  do 8 (unfold bind at 1; rewrite store_at_in_range by lia).
  apply IH.
  - done.
  - rewrite unread_consume, length_drop. lia.
  - unfold edge_list_lengths. cbn [geometry_list name_id_list turn_instruction_list
      lane_data_id_list travel_mode_list entry_class_id_list pre_turn_bearing_list
      post_turn_bearing_list].
    rewrite !length_insert. repeat constructor; lia.
Qed.

(** C4 (as amended).  A successful [readEdges] over [M] records has found
    those [M] records in the file and moved behind them, and it has written
    eight parallel sequences, not seven: in each of the eight lists handed in
    (geometry, name id, turn instruction, lane data id, travel mode, entry
    class id, bearing before and bearing after the turn) the first [M]
    entries are that member of records [0 .. M-1] in file order, so that
    entry [i] of every list comes from record [i]; the lists keep their
    lengths and what they held from index [M] on. *)
Theorem readEdges_parallel_lists (out out' : EdgeLists) (M : uint64) (f f' : File) :
  readEdges out M f = (Ok out', f') ->
  let m := Z.to_nat M in
  let size := Z.to_nat (sizeof OriginalEdgeData) in
  let records := array_of_bytes OriginalEdgeData m (unread (input_stream f)) in
  length (edge_list_lengths out') = 8%nat
  /\ edge_list_lengths out' = edge_list_lengths out
  /\ length records = m
  /\ (m * size <= length (unread (input_stream f)))%nat
  /\ f' = consume f (m * size)
  /\ take m (geometry_list out') = via_geometry <$> records
  /\ take m (name_id_list out') = name_id <$> records
  /\ take m (turn_instruction_list out') = turn_instruction <$> records
  /\ take m (lane_data_id_list out') = lane_data_id <$> records
  /\ take m (travel_mode_list out') = travel_mode <$> records
  /\ take m (entry_class_id_list out') = entry_classid <$> records
  /\ take m (pre_turn_bearing_list out') = pre_turn_bearing <$> records
  /\ take m (post_turn_bearing_list out') = post_turn_bearing <$> records
  /\ (forall (i : nat) (r : OriginalEdgeData),
        records !! i = Some r ->
        geometry_list out' !! i = Some (via_geometry r)
        /\ name_id_list out' !! i = Some (name_id r)
        /\ turn_instruction_list out' !! i = Some (turn_instruction r)
        /\ lane_data_id_list out' !! i = Some (lane_data_id r)
        /\ travel_mode_list out' !! i = Some (travel_mode r)
        /\ entry_class_id_list out' !! i = Some (entry_classid r)
        /\ pre_turn_bearing_list out' !! i = Some (pre_turn_bearing r)
        /\ post_turn_bearing_list out' !! i = Some (post_turn_bearing r))
  /\ drop m (geometry_list out') = drop m (geometry_list out)
  /\ drop m (name_id_list out') = drop m (name_id_list out)
  /\ drop m (turn_instruction_list out') = drop m (turn_instruction_list out)
  /\ drop m (lane_data_id_list out') = drop m (lane_data_id_list out)
  /\ drop m (travel_mode_list out') = drop m (travel_mode_list out)
  /\ drop m (entry_class_id_list out') = drop m (entry_class_id_list out)
  /\ drop m (pre_turn_bearing_list out') = drop m (pre_turn_bearing_list out)
  /\ drop m (post_turn_bearing_list out') = drop m (post_turn_bearing_list out).
Proof.
  intros Hrun m size records.
  apply readEdges_loop_ok in Hrun
    as (Hbytes & Hf' & Hc1 & Hc2 & Hc3 & Hc4 & Hc5 & Hc6 & Hc7 & Hc8).
  fold m size records in Hbytes, Hf', Hc1, Hc2, Hc3, Hc4, Hc5, Hc6, Hc7, Hc8.
  assert (length records = m) as Hm by apply array_of_bytes_length.
  apply stored_from_start in Hc1 as (Hl1 & Ht1 & Hd1).
  apply stored_from_start in Hc2 as (Hl2 & Ht2 & Hd2).
  apply stored_from_start in Hc3 as (Hl3 & Ht3 & Hd3).
  apply stored_from_start in Hc4 as (Hl4 & Ht4 & Hd4).
  apply stored_from_start in Hc5 as (Hl5 & Ht5 & Hd5).
  apply stored_from_start in Hc6 as (Hl6 & Ht6 & Hd6).
  apply stored_from_start in Hc7 as (Hl7 & Ht7 & Hd7).
  apply stored_from_start in Hc8 as (Hl8 & Ht8 & Hd8).
  rewrite length_fmap, Hm in Ht1, Ht2, Ht3, Ht4, Ht5, Ht6, Ht7, Ht8.
  rewrite length_fmap, Hm in Hd1, Hd2, Hd3, Hd4, Hd5, Hd6, Hd7, Hd8.
  split_and!; try done.
  - unfold edge_list_lengths. congruence.
  - intros i r Hr. rewrite <- Hm in Ht1, Ht2, Ht3, Ht4, Ht5, Ht6, Ht7, Ht8.
    split_and!; by eapply column_lookup.
Qed.

(** ** [readNodes] *)

Definition coordinate_of (r : QueryNode) : Coordinate :=
  {| coordinate_lon := lon r; coordinate_lat := lat r |}.

(** The index of the first coordinate that is not valid. *)
Fixpoint first_invalid (coordinates : list Coordinate) : option nat :=
  match coordinates with
  | [] => None
  | c :: coordinates' => if IsValid c then S <$> first_invalid coordinates' else Some 0%nat
  end.

Lemma first_invalid_None (coordinates : list Coordinate) :
  first_invalid coordinates = None <->
  (forall (j : nat) (c : Coordinate), coordinates !! j = Some c -> IsValid c = true).
Proof.
  induction coordinates as [|c cs IH]; simpl.
  - split; [intros _ j c' Hj; by rewrite lookup_nil in Hj | done].
  - destruct (IsValid c) eqn:Hc.
    + rewrite fmap_None, IH. split.
      * intros Hall [|j] c'; simpl; [by intros [= <-] | apply Hall].
      * intros Hall j c' Hj. by apply (Hall (S j)).
    + split; [done|]. intros Hall. specialize (Hall 0%nat c eq_refl). congruence.
Qed.

Lemma first_invalid_Some (coordinates : list Coordinate) (k : nat) :
  first_invalid coordinates = Some k <->
  (exists c, coordinates !! k = Some c /\ IsValid c = false)
  /\ (forall (j : nat) (c : Coordinate),
        (j < k)%nat -> coordinates !! j = Some c -> IsValid c = true).
Proof.
  revert k. induction coordinates as [|c cs IH]; intros k; simpl.
  - split; [done|]. intros [(c & Hc & _) _]. by rewrite lookup_nil in Hc.
  - destruct (IsValid c) eqn:Hc.
    + rewrite fmap_Some. split.
      * intros (k' & Hk' & ->). apply IH in Hk' as [Hbad Hbefore].
        split; [done|]. intros [|j] c'; simpl; [by intros _ [= <-]|].
        intros Hj. apply Hbefore. lia.
      * intros [(c' & Hk & Hbad) Hbefore]. destruct k as [|k]; simpl in Hk.
        { injection Hk as <-. congruence. }
        exists k. split; [|done]. apply IH. split; [by exists c'|].
        intros j c'' Hj. apply (Hbefore (S j)). lia.
    + split.
      * intros [= <-]. split; [by exists c|]. intros j c' Hj. lia.
      * intros [(c' & Hk & Hbad) Hbefore]. destruct k as [|k]; [done|].
        specialize (Hbefore 0%nat c ltac:(lia) eq_refl). congruence.
Qed.

Lemma readNodes_loop_run (turns : nat) :
  forall (i : nat) (coordinate_list : list Coordinate) (osmnodeid_list : list OSMNodeID)
         (f : File),
    let size := Z.to_nat (sizeof QueryNode) in
    let records := array_of_bytes QueryNode turns (unread (input_stream f)) in
    good (input_stream f) = true ->
    (turns * size <= length (unread (input_stream f)))%nat ->
    (i + turns <= length coordinate_list)%nat ->
    readNodes_loop turns i coordinate_list osmnodeid_list f =
      match (if assertions_disabled then None else first_invalid (coordinate_of <$> records)) with
      | None =>
          (Ok (take i coordinate_list ++ (coordinate_of <$> records)
                 ++ drop (i + turns) coordinate_list,
               osmnodeid_list ++ (node_id <$> records)),
           consume f (turns * size))
      | Some k => (AssertFail "coordinate_list[i].IsValid()", consume f (S k * size))
      end.
Proof.
  induction turns as [|turns IH]; intros i coordinate_list osmnodeid_list f size records
    Hg Hbytes Hbuf.
  - simpl. unfold ret. rewrite consume_0, Nat.add_0_r, take_drop, app_nil_r.
    by destruct assertions_disabled.
  - cbn [readNodes_loop]. unfold bind at 1.
    rewrite readInto_ref_unread by (done || fold size; lia). fold size.
    set (current := from_bytes QueryNode (take size (unread (input_stream f)))).
    unfold bind at 1, store_at at 1.
    destruct (decide (i < length coordinate_list)%nat) as [Hi|Hi]; [|lia].
    unfold bind at 1, BOOST_ASSERT.
    rewrite list_lookup_insert_eq by done. cbn [from_option].
    change {| coordinate_lon := lon current; coordinate_lat := lat current |}
      with (coordinate_of current).
    assert (good (input_stream (consume f size)) = true) as Hg1 by done.
    assert (turns * size <= length (unread (input_stream (consume f size))))%nat as Hbytes1
      by (rewrite unread_consume, length_drop; lia).
    assert (S i + turns <= length (<[i:=coordinate_of current]> coordinate_list))%nat
      as Hbuf1 by (rewrite length_insert; lia).
    specialize (IH (S i) (<[i:=coordinate_of current]> coordinate_list)
                  (osmnodeid_list ++ [node_id current]) (consume f size)
                  Hg1 Hbytes1 Hbuf1).
    rewrite unread_consume in IH. fold size in IH.
    subst records. cbn [array_of_bytes fmap list_fmap first_invalid]. fold size current.
    set (rest := array_of_bytes QueryNode turns (drop size (unread (input_stream f)))) in *.
    assert (take (S i) (<[i:=coordinate_of current]> coordinate_list)
            ++ (coordinate_of <$> rest)
            ++ drop (S i + turns) (<[i:=coordinate_of current]> coordinate_list)
            = take i coordinate_list ++ (coordinate_of current :: (coordinate_of <$> rest))
              ++ drop (i + S turns) coordinate_list) as Hcoords.
    { rewrite (take_S_r _ _ (coordinate_of current)) by (by apply list_lookup_insert_eq).
      rewrite take_insert_ge by lia. rewrite drop_insert_lt by lia.
      replace (i + S turns)%nat with (S i + turns)%nat by lia.
      by rewrite <- app_assoc. }
    assert (forall k, consume (consume f size) (k * size) = consume f (S k * size)) as Hpos
      by (intros k; rewrite consume_consume; f_equal; simpl; lia).
    destruct assertions_disabled.
    + rewrite IH, Hcoords, Hpos, <- app_assoc. reflexivity.
    + destruct (IsValid (coordinate_of current)) eqn:Hvalid.
      * rewrite IH. destruct (first_invalid (coordinate_of <$> rest)) as [k|].
        -- rewrite Hpos. reflexivity.
        -- rewrite Hcoords, Hpos, <- app_assoc. reflexivity.
      * f_equal. f_equal. simpl. lia.
Qed.

(** C7 (as amended).  With [number_of_coordinates] records in the file and
    room for them in the coordinate buffer, [readNodes] splits record [i] into
    the coordinate stored at index [i] and the identifier appended as the
    [i]-th new element of the identifier sequence, one of each per record.
    Where assertions are compiled in, the first record whose coordinate is not
    valid stops the run with an assertion failure, right behind that record;
    where they are compiled out validity is not looked at and the
    run succeeds. *)
Theorem readNodes_lock_step (coordinate_list : list Coordinate)
    (osmnodeid_list : list OSMNodeID) (number_of_coordinates : uint64) (f : File) :
  let m := Z.to_nat number_of_coordinates in
  let size := Z.to_nat (sizeof QueryNode) in
  let records := array_of_bytes QueryNode m (unread (input_stream f)) in
  good (input_stream f) = true ->
  (m * size <= length (unread (input_stream f)))%nat ->
  (m <= length coordinate_list)%nat ->
  ((assertions_disabled = true \/
    forall (j : nat) (r : QueryNode),
      records !! j = Some r -> IsValid (coordinate_of r) = true) ->
   exists coordinate_list' osmnodeid_list',
     readNodes coordinate_list osmnodeid_list number_of_coordinates f =
       (Ok (coordinate_list', osmnodeid_list'), consume f (m * size))
     /\ length coordinate_list' = length coordinate_list
     /\ length osmnodeid_list' = (length osmnodeid_list + m)%nat
     /\ take (length osmnodeid_list) osmnodeid_list' = osmnodeid_list
     /\ forall (i : nat) (r : QueryNode),
          records !! i = Some r ->
          coordinate_list' !! i = Some (coordinate_of r)
          /\ osmnodeid_list' !! (length osmnodeid_list + i)%nat = Some (node_id r))
  /\ (assertions_disabled = false ->
      forall (k : nat) (r : QueryNode),
        records !! k = Some r ->
        IsValid (coordinate_of r) = false ->
        (forall (j : nat) (r' : QueryNode),
           (j < k)%nat -> records !! j = Some r' -> IsValid (coordinate_of r') = true) ->
        readNodes coordinate_list osmnodeid_list number_of_coordinates f =
          (AssertFail "coordinate_list[i].IsValid()", consume f (S k * size))).
Proof.
  intros m size records Hg Hbytes Hbuf.
  pose proof (readNodes_loop_run m 0 coordinate_list osmnodeid_list f Hg Hbytes Hbuf) as Hrun.
  fold size records in Hrun. unfold readNodes. fold m.
  assert (length records = m) as Hm by apply array_of_bytes_length.
  split.
  - intros Hvalid.
    assert ((if assertions_disabled then None else first_invalid (coordinate_of <$> records)) = None)
      as Hnone.
    { destruct Hvalid as [-> | Hvalid]; [done|]. destruct assertions_disabled; [done|].
      apply first_invalid_None. intros j c Hj.
      apply list_lookup_fmap_Some in Hj as (r & -> & Hr). by eapply Hvalid. }
    rewrite Hnone in Hrun. simpl in Hrun.
    eexists _, _. split; [exact Hrun|].
    split_and!.
    + rewrite length_app, length_fmap, length_drop. lia.
    + rewrite length_app, length_fmap. lia.
    + by rewrite take_app_length.
    + intros i r Hr. split.
      * rewrite lookup_app_l by (rewrite length_fmap; by eapply lookup_lt_Some).
        by rewrite list_lookup_fmap, Hr.
      * rewrite lookup_app_r by lia.
        replace (length osmnodeid_list + i - length osmnodeid_list)%nat with i by lia.
        by rewrite list_lookup_fmap, Hr.
  - intros Hdebug k r Hk Hbad Hbefore.
    rewrite Hdebug in Hrun.
    assert (first_invalid (coordinate_of <$> records) = Some k) as Hfirst;
      [| by rewrite Hfirst in Hrun].
    apply first_invalid_Some. split.
    + exists (coordinate_of r). by rewrite list_lookup_fmap, Hk.
    + intros j c Hj Hc. apply list_lookup_fmap_Some in Hc as (r' & -> & Hr').
      by eapply Hbefore.
Qed.

(** ** [File::readLines] *)

Lemma until_newline_length (bs : list byte) :
  (length (until_newline bs).1 + (if (until_newline bs).2 then 1 else 0) <= length bs)%nat.
Proof.
  induction bs as [|b bs IH]; simpl; [lia|].
  destruct (Byte.eqb b x0a); simpl; [lia|].
  destruct (until_newline bs) as [line delim]. simpl in *. lia.
Qed.

(** The bound on the turns of the loop is never what ends it: the loop of
    [readLines] ends on a [getline] that left the stream failed. *)
Lemma readLines_loop_ends (turns : nat) :
  forall (s : ifstream) (result : list (list byte)),
    ((if good s then S (length (unread s)) else 0) < turns)%nat ->
    failbit (readLines_loop turns s result).2 = true.
Proof.
  induction turns as [|turns IH]; intros s result Hturns; [lia|].
  cbn [readLines_loop]. unfold getline.
  destruct (good s) eqn:Hg.
  - pose proof (until_newline_length (unread s)) as Hlen.
    destruct (until_newline (unread s)) as [line [|]]; cbn [fst snd] in Hlen.
    + apply IH. rewrite good_advance, Hg, unread_advance, length_drop. lia.
    + destruct (Z.eqb_spec (Z.of_nat (length line)) 0) as [Hz|Hz].
      * simpl. apply orb_true_r.
      * apply IH.
        assert (good (setstate (advance s (length line)) true false) = false) as ->
          by (unfold good; simpl; by rewrite orb_true_r).
        lia.
  - simpl. apply orb_true_r.
Qed.

Lemma readLines_ends_failed (f : File) :
  failbit (input_stream (readLines f).2) = true.
Proof.
  unfold readLines.
  pose proof (readLines_loop_ends (S (S (length (bytes (input_stream f)))))
                (input_stream f) []) as Hends.
  destruct (readLines_loop _ _ _) as [result s']. simpl in *. apply Hends.
  destruct (good (input_stream f)); [|lia].
  unfold unread. rewrite length_drop. lia.
Qed.

(** ** [readDatasourceNames] *)

(** Where each line starts when the lines are laid end to end from [base]. *)
Fixpoint starts (base : nat) (lines : list (list byte)) : list nat :=
  match lines with
  | [] => []
  | line :: lines' => base :: starts (base + length line) lines'
  end.

Lemma foldl_push_name (lines : list (list byte)) :
  forall d : DatasourceNamesData,
    foldl push_name d lines =
      {| names := names d ++ concat lines;
         offsets := offsets d ++ starts (length (names d)) lines;
         lengths := lengths d ++ (length <$> lines) |}.
Proof.
  induction lines as [|line lines IH]; intros d; simpl.
  - destruct d. by rewrite !app_nil_r.
  - rewrite IH. simpl. rewrite length_app, <- !app_assoc. reflexivity.
Qed.

Lemma starts_length (base : nat) (lines : list (list byte)) :
  length (starts base lines) = length lines.
Proof. revert base. induction lines as [|l ls IH]; intros base; simpl; [done | by rewrite IH]. Qed.

Lemma starts_lookup (lines : list (list byte)) :
  forall (base i : nat) (line : list byte),
    lines !! i = Some line ->
    starts base lines !! i = Some (base + length (concat (take i lines)))%nat.
Proof.
  induction lines as [|l ls IH]; intros base i line Hi; [by rewrite lookup_nil in Hi|].
  destruct i as [|i]; simpl.
  - by rewrite Nat.add_0_r.
  - rewrite (IH _ _ line Hi), length_app. f_equal. lia.
Qed.

Lemma concat_split_at (lines : list (list byte)) (i : nat) (line : list byte) :
  lines !! i = Some line ->
  concat lines = concat (take i lines) ++ line ++ concat (drop (S i) lines).
Proof.
  intros Hi. rewrite <- (take_drop_middle lines i line Hi) at 1.
  by rewrite concat_app.
Qed.

Lemma concat_take_mono (lines : list (list byte)) (i j : nat) (line : list byte) :
  lines !! i = Some line -> (i < j)%nat ->
  (length (concat (take i lines)) + length line <= length (concat (take j lines)))%nat.
Proof.
  intros Hi Hij.
  assert (take j lines !! i = Some line) as Hi' by (by apply lookup_take_Some).
  rewrite (concat_split_at (take j lines) i line Hi').
  rewrite take_take, Nat.min_l by lia.
  rewrite !length_app. lia.
Qed.

(** C9.  For every list of lines, in the table the loop of
    [readDatasourceNames] builds from it, [offsets] and [lengths] have one
    entry per line; the entries of line [i] delimit a window that lies inside
    [names], that holds exactly the characters of line [i], and that ends
    where or before the window of every later line starts.  That table is what
    [readDatasourceNames] returns on any file whose lines these are. *)
Theorem readDatasourceNames_windows (lines : list (list byte)) :
  let table := foldl push_name {| names := []; offsets := []; lengths := [] |} lines in
  length (offsets table) = length lines
  /\ length (lengths table) = length lines
  /\ (forall (i : nat) (line : list byte),
        lines !! i = Some line ->
        exists offset_i length_i : nat,
          offsets table !! i = Some offset_i
          /\ lengths table !! i = Some length_i
          /\ (offset_i + length_i <= length (names table))%nat
          /\ take length_i (drop offset_i (names table)) = line
          /\ forall (j offset_j : nat),
               (i < j)%nat -> offsets table !! j = Some offset_j ->
               (offset_i + length_i <= offset_j)%nat)
  /\ (forall datasource_names_file : File,
        (readLines datasource_names_file).1 = lines ->
        (readDatasourceNames datasource_names_file).1 = table).
Proof.
  intros table.
  assert (table = {| names := concat lines;
                     offsets := starts 0 lines;
                     lengths := length <$> lines |}) as Htable
    by (subst table; by rewrite foldl_push_name).
  split_and!.
  - rewrite Htable. apply starts_length.
  - rewrite Htable. apply length_fmap.
  - rewrite Htable. cbn [names offsets lengths].
    intros i line Hi.
    exists (length (concat (take i lines))), (length line).
    split; [by rewrite (starts_lookup lines 0 i line Hi)|].
    split; [by rewrite list_lookup_fmap, Hi|].
    rewrite (concat_split_at lines i line Hi) at 1 2.
    split; [rewrite !length_app; lia|].
    split; [by rewrite drop_app_length, take_app_length|].
    intros j offset_j Hij Hj.
    destruct (lookup_lt_is_Some_2 lines j) as [line_j Hline_j].
    { rewrite <- (starts_length 0). by eapply lookup_lt_Some. }
    rewrite (starts_lookup lines 0 j line_j Hline_j) in Hj. injection Hj as <-.
    by apply concat_take_mono.
  - intros f Hlines. unfold readDatasourceNames.
    destruct (readLines f) as [ls f']. simpl in *. by subst ls.
Qed.

(** ** The count readers on the raw stream *)

Lemma le_decode_zero_suffix (stored zeros : list byte) :
  Forall (fun b => b = x00) zeros -> le_decode (stored ++ zeros) = le_decode stored.
Proof.
  intros Hz. induction stored as [|b stored IH]; simpl; [|by rewrite IH].
  induction Hz as [|z zeros -> _ IH]; simpl; [done | by rewrite IH].
Qed.

Lemma le_decode_overwrite_zero (n : nat) (stored : list byte) :
  le_decode (io.overwrite stored (le_encode n 0)) = le_decode stored.
Proof.
  unfold io.overwrite. apply le_decode_zero_suffix, Forall_drop.
  induction n as [|n IH]; simpl; [constructor|]. by constructor.
Qed.

Lemma istream_read_stored (s : ifstream) (n : nat) :
  (istream_read s (Z.of_nat n)).1 = take n (if good s then unread s else []).
Proof.
  unfold istream_read. destruct (good s).
  - rewrite Nat2Z.id. by destruct (_ =? _).
  - by rewrite take_nil.
Qed.

Lemma istream_read_fails (s : ifstream) (n : nat) :
  (length (if good s then unread s else []) < n)%nat ->
  failbit (istream_read s (Z.of_nat n)).2 = true.
Proof.
  intros Hshort. unfold istream_read. destruct (good s) eqn:Hg.
  - rewrite Nat2Z.id. rewrite take_ge by lia.
    destruct (Z.eqb_spec (Z.of_nat (length (unread s))) (Z.of_nat n)); [lia|].
    simpl. apply orb_true_r.
  - simpl. apply orb_true_r.
Qed.

(** C10.  On a stream that cannot deliver the whole count (nothing, or fewer
    bytes than the count has), the free-standing [readElementCount64] and
    [readElementCount32] return a number all the same: the little-endian value
    of the bytes that did arrive, so zero when none did.  The failure shows
    only in the state of the stream, which they do not look at, whereas
    [File::readElementCount64] and [File::readElementCount32] on that stream
    throw. *)
Theorem free_readElementCount_unchecked (s : ifstream) (name : string) :
  let available := if good s then unread s else [] in
  let file := {| filename := name; input_stream := s |} in
  ((length available < 8)%nat ->
   (io.readElementCount64 s).1 = le_decode available
   /\ (available = [] -> (io.readElementCount64 s).1 = 0)
   /\ failbit (io.readElementCount64 s).2 = true
   /\ exists what, (readElementCount64 file).1 = Throw what)
  /\ ((length available < 4)%nat ->
      (io.readElementCount32 s).1 = le_decode available
      /\ (available = [] -> (io.readElementCount32 s).1 = 0)
      /\ failbit (io.readElementCount32 s).2 = true
      /\ exists what, (readElementCount32 file).1 = Throw what).
Proof.
  intros available file.
  assert (forall (T : Type) `{TriviallyCopyable T},
            Z.of_nat (length available) < sizeof T ->
            exists what, (readInto T 1 file).1 = Throw what) as Hfile.
  { intros T HT Hshort. subst available.
    destruct (good s) eqn:Hg.
    - destruct (readInto_short T 1 file) as [f' ->]; [lia | | simpl; lia | by eexists].
      pose proof (sizeof_bounds (T:=T)). lia.
    - eexists. apply readInto_at_end; [done | by left]. }
  split; intros Hshort.
  - unfold io.readElementCount64.
    pose proof (istream_read_stored s 8) as Hstored.
    pose proof (istream_read_fails s 8 Hshort) as Hfail.
    change (Z.of_nat 8) with 8 in Hstored, Hfail.
    destruct (istream_read s 8) as [stored s']. simpl in Hstored, Hfail. subst stored.
    cbn [fst snd]. rewrite le_decode_overwrite_zero.
    fold available. rewrite take_ge by lia.
    split_and!; [done | by intros -> | done |].
    destruct (Hfile uint64 _) as [what Hwhat]; [simpl; lia|].
    exists what. unfold readElementCount64, readOne, readInto_ref, bind.
    by destruct (readInto uint64 1 file) as [[?| | |] ?]; simplify_eq/=.
  - unfold io.readElementCount32.
    pose proof (istream_read_stored s 4) as Hstored.
    pose proof (istream_read_fails s 4 Hshort) as Hfail.
    change (Z.of_nat 4) with 4 in Hstored, Hfail.
    destruct (istream_read s 4) as [stored s']. simpl in Hstored, Hfail. subst stored.
    cbn [fst snd]. rewrite le_decode_overwrite_zero.
    fold available. rewrite take_ge by lia.
    split_and!; [done | by intros -> | done |].
    destruct (Hfile uint32 _) as [what Hwhat]; [simpl; lia|].
    exists what. unfold readElementCount32, readOne, readInto_ref, bind.
    by destruct (readInto uint32 1 file) as [[?| | |] ?]; simplify_eq/=.
Qed.

(** * Further properties of the code *)

(** ** Reads that succeed, reads in sequence, reads after a failure *)

(** X1.  A [readInto] for [K > 0] objects whose byte count fits a
    [streamsize] succeeds exactly when the handle is good and at least
    [K * sizeof(T)] bytes are left; it then delivers exactly the next
    [K * sizeof(T)] bytes of the file, moves the position by that many and
    leaves the handle good. *)
Theorem readInto_exact (T : Type) `{TriviallyCopyable T} (K : Z) (f : File) :
  0 < K -> K * sizeof T <= STREAMSIZE_MAX ->
  let wanted := Z.to_nat (K * sizeof T) in
  ((exists stored f', readInto T K f = (Ok stored, f')) <->
   good (input_stream f) = true /\ (wanted <= length (unread (input_stream f)))%nat)
  /\ (forall stored f',
        readInto T K f = (Ok stored, f') ->
        stored = take wanted (unread (input_stream f))
        /\ length stored = wanted
        /\ f' = consume f wanted
        /\ good (input_stream f') = true).
Proof.
  intros HK Hmax wanted. pose proof (sizeof_bounds (T:=T)) as Hs.
  assert (0 < K * sizeof T) as Hpos by nia.
  split.
  - split.
    + intros (stored & f' & Hread).
      apply readInto_ok_inv in Hread as (Hg & Hlen & _); [| done | done].
      split; [done | subst wanted; lia].
    + intros [Hg Hlen]. eexists _, _. apply readInto_enough; [done | done | done |].
      subst wanted. lia.
  - intros stored f' Hread.
    apply readInto_ok_inv in Hread as (Hg & Hlen & -> & ->); [| done | done].
    split_and!; [done | | done | done].
    rewrite length_take. subst wanted. lia.
Qed.

(** X2.  Two reads in a row deliver what one read of both counts delivers:
    where [a] objects and then [b] objects were read, reading [a + b] objects
    from the first position gives the two results one after the other and
    ends in the same state. *)
Theorem readInto_in_sequence (T : Type) `{TriviallyCopyable T} (a b : Z) (f f1 f2 : File)
    (first second : list byte) :
  0 < a -> 0 < b -> (a + b) * sizeof T <= STREAMSIZE_MAX ->
  readInto T a f = (Ok first, f1) ->
  readInto T b f1 = (Ok second, f2) ->
  readInto T (a + b) f = (Ok (first ++ second), f2).
Proof.
  intros Ha Hb Hmax Hfirst Hsecond. pose proof (sizeof_bounds (T:=T)) as Hs.
  apply readInto_ok_inv in Hfirst as (Hg & Hlen1 & -> & ->); [| done | nia].
  apply readInto_ok_inv in Hsecond as (_ & Hlen2 & -> & ->); [| done | nia].
  rewrite unread_consume, length_drop in Hlen2.
  rewrite readInto_enough by (done || nia).
  rewrite unread_consume, consume_consume, take_take_drop.
  replace (Z.to_nat ((a + b) * sizeof T))
    with (Z.to_nat (a * sizeof T) + Z.to_nat (b * sizeof T))%nat by nia.
  reflexivity.
Qed.

Lemma good_skip (T : Type) `{TriviallyCopyable T} (n : Z) (f : File) :
  good (input_stream (skip T n f)) = good (input_stream f).
Proof.
  unfold skip, seek_cur. cbn [input_stream with_stream].
  by destruct (_ && _).
Qed.

Lemma readInto_throw_not_good (T : Type) `{TriviallyCopyable T} (K : Z) (f f1 : File)
    (what : string) :
  size_t_wrap (K * sizeof T) <> 0 ->
  readInto T K f = (Throw what, f1) ->
  failbit (input_stream f1) = true /\ filename f1 = filename f.
Proof.
  intros Hspan Hread. unfold readInto in Hread.
  destruct (K =? 0); [done|].
  set (expected := size_t_wrap (K * sizeof T)) in *.
  unfold istream_read in Hread.
  destruct (good (input_stream f)) eqn:Hg.
  - set (stored := take (Z.to_nat (to_signed64 expected)) (unread (input_stream f))) in *.
    destruct (Z.eqb_spec (Z.of_nat (length stored)) (to_signed64 expected)) as [Hall|Hfew].
    + assert (to_signed64 expected = expected) as Hsigned.
      { unfold to_signed64 in *. destruct (expected <=? STREAMSIZE_MAX) eqn:Hfit; [done|].
        assert (0 <= expected < 2 ^ 64) by (apply Z.mod_pos_bound; lia).
        apply Z.leb_gt in Hfit. unfold STREAMSIZE_MAX in Hfit. lia. }
      rewrite Hsigned in Hall. cbv zeta in Hread.
      destruct (Z.eqb_spec (Z.of_nat (length stored)) 0); [lia|].
      destruct (Z.ltb_spec (Z.of_nat (length stored)) expected); [lia | done].
    + cbv zeta in Hread.
      destruct (_ =? 0); [| destruct (_ <? _)]; simplify_eq; split; try done;
        apply orb_true_r.
  - cbv zeta in Hread.
    change (Z.of_nat (length (@nil byte)) =? 0) with true in Hread.
    cbv iota in Hread. injection Hread as _ <-.
    split; [apply orb_true_r | done].
Qed.

Lemma readLines_not_good (f : File) :
  good (input_stream f) = false -> (readLines f).1 = [].
Proof.
  intros Hg. unfold readLines. cbn [readLines_loop]. unfold getline. by rewrite Hg.
Qed.

(** X3.  A failed read is final.  Once a [readInto] whose byte count, as the
    code computes it ([count * sizeof(T)] in [std::size_t]), is not zero has
    thrown, every later [readInto] for a count other than zero throws the
    message of a read that got nothing, whatever is skipped in between and
    however many bytes the file still holds there, and [readLines] returns no
    line. *)
Theorem readInto_failure_is_final (T U V : Type) `{TriviallyCopyable T}
    `{TriviallyCopyable U} `{TriviallyCopyable V}
    (K n K' : Z) (f f1 : File) (what : string) :
  size_t_wrap (K * sizeof T) <> 0 ->
  readInto T K f = (Throw what, f1) ->
  K' <> 0 ->
  (readInto U K' f1).1
    = Throw ("Error reading from " +:+ filename f +:+ ": " +:+ strerror_errno)
  /\ (readInto U K' (skip V n f1)).1
    = Throw ("Error reading from " +:+ filename f +:+ ": " +:+ strerror_errno)
  /\ (readLines f1).1 = []
  /\ (readLines (skip V n f1)).1 = [].
Proof.
  intros Hspan Hread HK'.
  apply readInto_throw_not_good in Hread as [Hfail Hname]; [|done].
  assert (good (input_stream f1) = false) as Hg
    by (unfold good; rewrite Hfail; apply andb_false_r).
  assert (good (input_stream (skip V n f1)) = false) as Hg' by (by rewrite good_skip).
  rewrite <- Hname.
  split_and!.
  - apply readInto_at_end; [done | by left].
  - change (filename f1) with (filename (skip V n f1)).
    apply readInto_at_end; [done | by left].
  - by apply readLines_not_good.
  - by apply readLines_not_good.
Qed.

(** ** [File::skip] *)

(** X4.  Skips add up: within the range of file offsets, skipping [b] objects
    and then [a] objects is skipping [a + b] objects, skipping none changes
    nothing, and skipping [n] objects of [T] is skipping [n * sizeof(T)]
    bytes. *)
Theorem skip_adds_up (T : Type) `{TriviallyCopyable T} (a b : Z) (f : File) :
  0 <= a -> 0 <= b ->
  Z.of_nat (offset (input_stream f)) + (a + b) * sizeof T <= STREAMSIZE_MAX ->
  skip T a (skip T b f) = skip T (a + b) f
  /\ skip T 0 f = f
  /\ skip T a f = skip uint8 (a * sizeof T) f.
Proof.
  intros Ha Hb Hmax. pose proof (sizeof_bounds (T:=T)) as Hs.
  assert (sizeof uint8 = 1) as H8 by reflexivity.
  split_and!.
  - rewrite (skip_in_range T b f) by (done || nia).
    rewrite (skip_in_range T a) by (done || cbn [input_stream offset]; nia).
    rewrite (skip_in_range T (a + b)) by (lia || done).
    cbn [filename input_stream bytes offset eofbit failbit].
    do 2 f_equal. nia.
  - rewrite skip_in_range by (done || nia).
    destruct f as [name [bs off e fl]]; cbn. do 2 f_equal. lia.
  - rewrite (skip_in_range T a) by (done || nia).
    rewrite (skip_in_range uint8) by (nia || rewrite H8; nia).
    by rewrite H8, Z.mul_1_r.
Qed.

(** ** [File::size], [readNumberOfBytes], [readTimestamp] *)

Lemma istream_tellg_good (s : ifstream) :
  good s = true -> Z.of_nat (offset s) <= STREAMSIZE_MAX ->
  istream_tellg s = (Z.of_nat (offset s), s).
Proof.
  intros Hg Hmax. unfold istream_tellg, pubseekoff. rewrite Hg.
  rewrite Z.add_0_r.
  destruct (Z.leb_spec 0 (Z.of_nat (offset s))); [|lia].
  by destruct (Z.leb_spec (Z.of_nat (offset s)) STREAMSIZE_MAX); [|lia].
Qed.

Lemma istream_tellg_not_good (s : ifstream) :
  good s = false -> istream_tellg s = (-1, setstate s false true).
Proof. intros Hg. unfold istream_tellg. by rewrite Hg. Qed.

Lemma istream_seekg_in_range (s : ifstream) (off : Z) (way : seekdir) :
  failbit s = false ->
  let target :=
    match way with
    | ios_beg => 0
    | ios_cur => Z.of_nat (offset s)
    | ios_end => Z.of_nat (length (bytes s))
    end + off in
  0 <= target <= STREAMSIZE_MAX ->
  istream_seekg s off way =
    {| bytes := bytes s; offset := Z.to_nat target; eofbit := false; failbit := false |}.
Proof.
  intros Hfail target Htarget. unfold istream_seekg, pubseekoff.
  cbn [failbit bytes offset eofbit]. rewrite Hfail. fold target.
  destruct (Z.leb_spec 0 target); [|lia].
  destruct (Z.leb_spec target STREAMSIZE_MAX); [|lia].
  cbn [andb]. by destruct (Z.eqb_spec target (-1)); [lia|].
Qed.

Lemma istream_seekg_failed (s : ifstream) (off : Z) (way : seekdir) :
  failbit s = true ->
  istream_seekg s off way =
    {| bytes := bytes s; offset := offset s; eofbit := false; failbit := true |}.
Proof.
  intros Hfail. unfold istream_seekg. cbn [failbit]. by rewrite Hfail.
Qed.

Lemma failbit_setstate (s : ifstream) (eof : bool) : failbit (setstate s eof true) = true.
Proof. cbn. apply orb_true_r. Qed.

(** X5.  On a good handle of a file that fits the range of file offsets
    [size()] returns the length of the file and leaves the handle exactly as
    it was, position included, wherever it stands (behind the end too).  On a
    handle that is not good, as after a read that failed or after
    [readLines], it returns [2^64 - 1] instead, does not move, and leaves the
    handle failed. *)
Theorem File_size_cases (f : File) :
  (good (input_stream f) = true ->
   Z.of_nat (offset (input_stream f)) <= STREAMSIZE_MAX ->
   Z.of_nat (length (bytes (input_stream f))) <= STREAMSIZE_MAX ->
   File_size f = (Z.of_nat (length (bytes (input_stream f))), f))
  /\ (good (input_stream f) = false ->
      File_size f =
        (2 ^ 64 - 1,
         with_stream f {| bytes := bytes (input_stream f);
                          offset := offset (input_stream f);
                          eofbit := false; failbit := true |})).
Proof.
  destruct f as [name s]. cbn [input_stream]. split.
  - intros Hg Hoff Hlen. unfold File_size. cbn [input_stream].
    rewrite istream_tellg_good by done.
    assert (failbit s = false /\ eofbit s = false) as [Hfail Heof].
    { unfold good in Hg. apply andb_prop in Hg as [He Hf].
      by apply negb_true_iff in He, Hf. }
    rewrite (istream_seekg_in_range s 0 ios_end) by (done || lia).
    rewrite istream_tellg_good by (done || cbn; lia).
    cbn [offset]. rewrite istream_seekg_in_range by (done || cbn; lia).
    cbn [bytes offset]. unfold size_t_wrap, with_stream. cbn [filename].
    rewrite Z.mod_small by (unfold STREAMSIZE_MAX in *; lia).
    rewrite !Z.add_0_r, !Z.add_0_l, !Nat2Z.id.
    destruct s as [bs off e fl]. cbn in *. by subst.
  - intros Hg. unfold File_size. cbn [input_stream].
    rewrite istream_tellg_not_good by done.
    rewrite istream_seekg_failed by apply failbit_setstate.
    rewrite istream_tellg_not_good by done.
    rewrite istream_seekg_failed by apply failbit_setstate.
    reflexivity.
Qed.

(** X6.  On a stream that has not failed (at the end of the file or not),
    over a file that fits the range of file offsets, [readNumberOfBytes]
    returns the length of the file and leaves the stream good at the start of
    the file, whatever the position was; [readTimestamp] for that many bytes
    into a buffer of that size then delivers the whole file and leaves the
    stream good at its end. *)
Theorem readNumberOfBytes_then_readTimestamp (s : ifstream) (timestamp : list byte) :
  failbit s = false ->
  Z.of_nat (length (bytes s)) <= STREAMSIZE_MAX ->
  length timestamp = length (bytes s) ->
  readNumberOfBytes s = (Z.of_nat (length (bytes s)), ifstream_open (bytes s))
  /\ readTimestamp (readNumberOfBytes s).2 timestamp (readNumberOfBytes s).1
     = (Ok (bytes s),
        {| bytes := bytes s; offset := length (bytes s);
           eofbit := false; failbit := false |}).
Proof.
  intros Hfail Hlen Hbuf.
  assert (readNumberOfBytes s = (Z.of_nat (length (bytes s)), ifstream_open (bytes s)))
    as Hcount.
  { unfold readNumberOfBytes.
    rewrite (istream_seekg_in_range s 0 ios_end) by (done || lia).
    rewrite istream_tellg_good by (done || cbn; lia).
    rewrite istream_seekg_in_range by (done || cbn; unfold STREAMSIZE_MAX; lia).
    cbn [offset bytes]. unfold size_t_wrap.
    rewrite Z.mod_small by (unfold STREAMSIZE_MAX in *; lia).
    by rewrite !Z.add_0_r, Nat2Z.id. }
  split; [done|]. rewrite Hcount. cbn [fst snd].
  unfold readTimestamp.
  destruct (to_signed64_size_t (Z.of_nat (length (bytes s)) * 1)) as [-> _]; [lia|].
  rewrite Z.mul_1_r.
  rewrite istream_read_enough by (done || unfold unread; cbn; rewrite drop_0; lia).
  unfold unread. cbn [offset bytes ifstream_open]. rewrite drop_0, Nat2Z.id, firstn_all.
  destruct (decide (length (bytes s) <= length timestamp)%nat); [|lia].
  unfold io.overwrite. rewrite drop_ge, app_nil_r by lia.
  reflexivity.
Qed.

(** X7.  [readTimestamp] checks nothing: asked for more bytes than the stream
    has left, it returns normally with the bytes that were there copied over
    the start of the buffer and the rest of the buffer as it was; the only
    trace is the failed state of the stream. *)
Theorem readTimestamp_unchecked (s : ifstream) (timestamp : list byte)
    (timestamp_length : Z) :
  good s = true ->
  Z.of_nat (length (unread s)) < timestamp_length <= STREAMSIZE_MAX ->
  timestamp_length = Z.of_nat (length timestamp) ->
  exists s',
    readTimestamp s timestamp timestamp_length
      = (Ok (unread s ++ drop (length (unread s)) timestamp), s')
    /\ failbit s' = true.
Proof.
  intros Hg Hshort Hbuf. unfold readTimestamp.
  destruct (to_signed64_size_t (timestamp_length * 1)) as [-> _]; [lia|].
  rewrite Z.mul_1_r, istream_read_short by (done || lia).
  destruct (decide (length (unread s) <= length timestamp)%nat); [|lia].
  eexists. split; [reflexivity|]. cbn. apply orb_true_r.
Qed.

(** ** What a caller holds after a call that succeeded *)

Lemma readOne_ok_inv (T : Type) `{TriviallyCopyable T} (f f1 : File) (x : T) :
  readOne T f = (Ok x, f1) ->
  let size := Z.to_nat (sizeof T) in
  good (input_stream f) = true
  /\ (size <= length (unread (input_stream f)))%nat
  /\ x = from_bytes T (take size (unread (input_stream f)))
  /\ f1 = consume f size.
Proof.
  intros Hread. unfold readOne in Hread.
  apply bind_ok_inv in Hread as (y & f' & Hread & Hret).
  injection Hret as <- <-. by apply readInto_ref_ok_inv.
Qed.

Lemma array_of_bytes_take (T : Type) `{TriviallyCopyable T} (n : nat) :
  forall (k : nat) (bs : list byte),
    (n * Z.to_nat (sizeof T) <= k)%nat ->
    array_of_bytes T n (take k bs) = array_of_bytes T n bs.
Proof.
  induction n as [|n IH]; intros k bs Hk; [done|].
  cbn [array_of_bytes].
  rewrite take_take, Nat.min_l by lia. f_equal.
  replace k with (Z.to_nat (sizeof T) + (k - Z.to_nat (sizeof T)))%nat at 1 by lia.
  rewrite <- take_drop_commute. apply IH. lia.
Qed.

(** X8.  Every handle the constructor returns is good and belongs to a path
    of the file system, whose content it reads.  Opened without the check it
    stands at the start of the file; opened with the check it stands right
    behind a fingerprint record, and that record has the magic number and all
    four markers of the running build.  A path that cannot be opened gives no
    handle, with or without the check. *)
Theorem File_open_returns (fs : gmap string (list byte)) (path : string)
    (check_fingerprint : bool) (f : File) :
  File_open fs path check_fingerprint = Ok f ->
  let size := Z.to_nat (sizeof FingerPrint) in
  filename f = path
  /\ fs !! path = Some (bytes (input_stream f))
  /\ good (input_stream f) = true
  /\ (check_fingerprint = false -> offset (input_stream f) = 0%nat)
  /\ (check_fingerprint = true ->
      offset (input_stream f) = size
      /\ (size <= length (bytes (input_stream f)))%nat
      /\ let loaded := from_bytes FingerPrint (take size (bytes (input_stream f))) in
         magic_number loaded = magic_number GetValid
         /\ graph_construction loaded = graph_construction GetValid
         /\ contraction loaded = contraction GetValid
         /\ spatial_index loaded = spatial_index GetValid
         /\ query_object loaded = query_object GetValid).
Proof.
  intros Hopen size. unfold File_open in Hopen.
  destruct (fs !! path) as [content|] eqn:Hfs; [|done].
  destruct check_fingerprint.
  - destruct (readAndCheckFingerprint _) as [[[|]| | |] this'] eqn:Hcheck; try done.
    injection Hopen as ->.
    unfold readAndCheckFingerprint in Hcheck.
    apply bind_ok_inv in Hcheck as (loaded & f1 & Hread & Hret).
    injection Hret as Htests <-.
    apply readOne_ok_inv in Hread as (_ & Hlen & -> & ->).
    unfold unread in *. cbn [input_stream ifstream_open offset bytes] in *.
    rewrite drop_0 in *. fold size in Hlen, Htests.
    cbn [consume with_stream advance filename input_stream bytes offset].
    split_and!; [done | done | done | done |].
    intros _. split; [done|]. split; [done|].
    cbv zeta. unfold IsMagicNumberOK, TestContractor, TestGraphUtil, TestRTree,
      TestQueryObjects in Htests.
    repeat (apply andb_prop in Htests as [Htests ?]).
    repeat match goal with
           | Heq : (_ =? _) = true |- _ => apply Z.eqb_eq in Heq
           end.
    change (bytes (ifstream_open content)) with content.
    split_and!; congruence.
  - injection Hopen as <-. cbn. by split_and!.
Qed.

(** X9.  [deserializeVector] never returns a vector of another length than
    the count the file states.  Whenever it succeeds, the eight bytes at the
    position were that count, the file held that many records behind it, the
    vector is exactly those records (whatever it held before) and the position
    has moved over the count and the records. *)
Theorem deserializeVector_returns (T : Type) `{TriviallyCopyable T}
    (data data' : list T) (f f' : File) :
  deserializeVector T data f = (Ok data', f') ->
  let count := le_decode (take 8 (unread (input_stream f))) in
  let records := drop 8 (unread (input_stream f)) in
  good (input_stream f) = true
  /\ (8 <= length (unread (input_stream f)))%nat
  /\ count * sizeof T <= Z.of_nat (length records)
  /\ Z.of_nat (length data') = count
  /\ data' = array_of_bytes T (Z.to_nat count) records
  /\ f' = consume f (8 + Z.to_nat (count * sizeof T)).
Proof.
  intros Hrun count records. pose proof (sizeof_bounds (T:=T)) as Hs.
  unfold deserializeVector, readElementCount64 in Hrun.
  apply bind_ok_inv in Hrun as (n & f1 & Hcount & Hrun).
  apply readOne_ok_inv in Hcount as (Hg & Hlen & -> & ->).
  change (Z.to_nat (sizeof uint64)) with 8%nat in *.
  change (from_bytes uint64 (take 8 (unread (input_stream f)))) with count in Hrun.
  pose proof (le_decode_nonneg (take 8 (unread (input_stream f)))) as Hcount.
  fold count in Hcount.
  apply bind_ok_inv in Hrun as (resized & f2 & Hresize & Hrun).
  unfold vector_resize in Hresize.
  destruct (Z.gtb_spec count (max_size T)) as [|Hmax]; [done|].
  injection Hresize as <- <-.
  assert (count * sizeof T <= STREAMSIZE_MAX) as Hfits.
  { unfold max_size in Hmax.
    assert (0 < sizeof T) as Hpositive by lia.
    pose proof (Z.mul_div_le STREAMSIZE_MAX (sizeof T) Hpositive). nia. }
  apply bind_ok_inv in Hrun as (stored & f3 & Hread & Hret).
  injection Hret as <- <-.
  rewrite length_app, length_take, length_replicate.
  replace (Z.to_nat count `min` length data + (Z.to_nat count - length data))%nat
    with (Z.to_nat count) by lia.
  destruct (Z.eq_dec count 0) as [Hzero|Hzero].
  - rewrite Hzero in *. rewrite readInto_zero in Hread. injection Hread as <- <-.
    split_and!; try done; try lia.
  - apply readInto_ok_inv in Hread as (_ & Hrecords & -> & ->); [| lia | done].
    rewrite unread_consume in *. fold records in Hrecords |- *.
    split_and!; try done.
    + rewrite array_of_bytes_length. lia.
    + apply array_of_bytes_take. nia.
    + by rewrite consume_consume.
Qed.

(** ** Decoders on files that hold all of, or less than, what is asked for *)

Lemma readInto_ref_short (T : Type) `{TriviallyCopyable T} (f : File) :
  (length (unread (input_stream f)) < Z.to_nat (sizeof T))%nat ->
  exists what f', readInto_ref T f = (Throw what, f').
Proof.
  intros Hshort. pose proof (sizeof_bounds (T:=T)) as Hs.
  unfold readInto_ref, bind.
  destruct (readInto_short T 1 f) as [f' ->]; [lia | lia | lia |]. eauto.
Qed.

Lemma readEdges_loop_truncated (turns : nat) :
  forall (i : nat) (out : EdgeLists) (f : File),
    good (input_stream f) = true ->
    (length (unread (input_stream f)) < turns * Z.to_nat (sizeof OriginalEdgeData))%nat ->
    Forall (fun n => (i + turns <= n)%nat) (edge_list_lengths out) ->
    exists what f', readEdges_loop turns i out f = (Throw what, f').
Proof.
  induction turns as [|turns IH]; intros i out f Hg Hbytes Hroom; [simpl in Hbytes; lia|].
  cbn [readEdges_loop]. unfold bind at 1.
  destruct (le_lt_dec (Z.to_nat (sizeof OriginalEdgeData)) (length (unread (input_stream f))))
    as [Hone|Hnone].
  - rewrite readInto_ref_unread by done.
    unfold edge_list_lengths in Hroom.
    repeat match goal with
           | H : Forall _ (_ :: _) |- _ => apply Forall_cons in H as [? H]
           end.
    do 8 (unfold bind at 1; rewrite store_at_in_range by lia).
    apply IH.
    + done.
    + rewrite unread_consume, length_drop. lia.
    + unfold edge_list_lengths. cbn [geometry_list name_id_list turn_instruction_list
        lane_data_id_list travel_mode_list entry_class_id_list pre_turn_bearing_list
        post_turn_bearing_list].
      rewrite !length_insert. repeat constructor; lia.
  - destruct (readInto_ref_short OriginalEdgeData f Hnone) as (what & f' & ->). eauto.
Qed.

(** X10.  With room for [M] entries in each of the eight lists and a good
    handle, [readEdges] succeeds when the file holds [M] records from the
    position on, and throws when it holds fewer. *)
Theorem readEdges_all_or_nothing (out : EdgeLists) (M : uint64) (f : File) :
  good (input_stream f) = true ->
  Forall (fun n => (Z.to_nat M <= n)%nat) (edge_list_lengths out) ->
  let needed := (Z.to_nat M * Z.to_nat (sizeof OriginalEdgeData))%nat in
  ((needed <= length (unread (input_stream f)))%nat ->
   exists out', readEdges out M f = (Ok out', consume f needed))
  /\ ((length (unread (input_stream f)) < needed)%nat ->
      exists what f', readEdges out M f = (Throw what, f')).
Proof.
  intros Hg Hroom needed. unfold readEdges. split; intros Hbytes.
  - destruct (readEdges_loop_succeeds (Z.to_nat M) 0 out f Hg Hbytes Hroom)
      as (out' & f' & Hrun).
    exists out'. rewrite Hrun.
    by apply readEdges_loop_ok in Hrun as (_ & -> & _).
  - by apply readEdges_loop_truncated.
Qed.

Lemma bind_ok {A B} (m : IO A) (k : A -> IO B) (f f1 : File) (a : A) :
  m f = (Ok a, f1) -> bind m k f = k a f1.
Proof. intros Hm. unfold bind. by rewrite Hm. Qed.

Lemma bind_throw {A B} (m : IO A) (k : A -> IO B) (f f1 : File) (what : string) :
  m f = (Throw what, f1) -> bind m k f = (Throw what, f1).
Proof. intros Hm. unfold bind. by rewrite Hm. Qed.

Lemma readOne_outcomes (T : Type) `{TriviallyCopyable T} (f : File) :
  (exists x f1, readOne T f = (Ok x, f1)) \/ (exists what f1, readOne T f = (Throw what, f1)).
Proof.
  pose proof (sizeof_bounds (T:=T)) as Hs.
  destruct (good (input_stream f)) eqn:Hg.
  - destruct (le_lt_dec (Z.to_nat (sizeof T)) (length (unread (input_stream f))))
      as [Hlen|Hlen].
    + left. unfold readOne. erewrite bind_ok by (by apply readInto_ref_unread). eauto.
    + right. destruct (readInto_ref_short T f Hlen) as (what & f' & Hthrow).
      unfold readOne. erewrite bind_throw by done. eauto.
  - right. unfold readOne, readInto_ref.
    assert ((readInto T 1 f).1 =
            Throw ("Error reading from " +:+ filename f +:+ ": " +:+ strerror_errno))
      as Hthrow by (apply readInto_at_end; [done | by left]).
    destruct (readInto T 1 f) as [outcome f'] eqn:Hread. cbn [fst] in Hthrow. subst outcome.
    erewrite bind_throw; [eauto|]. by erewrite bind_throw.
Qed.

(** X11.  A [.hsgr] file that ends before the fingerprint and the twenty
    header bytes are complete makes [readHSGRHeader] throw, in every build:
    no header is made up from a truncated file. *)
Theorem readHSGRHeader_truncated (f : File) :
  (length (unread (input_stream f)) < Z.to_nat (sizeof FingerPrint) + 20)%nat ->
  exists what f' warnings, readHSGRHeader f = (Throw what, f', warnings).
Proof.
  intros Hshort. unfold readHSGRHeader.
  destruct (readOne_outcomes FingerPrint f) as [(loaded & f1 & Hfp)|(what & f1 & Hfp)];
    rewrite Hfp; [|eauto].
  apply readOne_ok_inv in Hfp as (Hg & Hlen & _ & ->).
  set (f1 := consume f (Z.to_nat (sizeof FingerPrint))).
  assert (good (input_stream f1) = true) as Hg1 by done.
  assert (length (unread (input_stream f1)) < 20)%nat as Hrest
    by (subst f1; rewrite unread_consume, length_drop; lia).
  clearbody f1.
  destruct (le_lt_dec 4 (length (unread (input_stream f1)))) as [H4|H4].
  2: { destruct (readInto_ref_short uint32 f1) as (what & f' & Hthrow); [exact H4|].
       erewrite bind_throw by done. eauto. }
  erewrite bind_ok by (apply (readInto_ref_unread uint32); [done | exact H4]).
  change (Z.to_nat (sizeof uint32)) with 4%nat.
  set (f2 := consume f1 4).
  assert (good (input_stream f2) = true) as Hg2 by done.
  assert (length (unread (input_stream f2)) < 16)%nat as Hrest2
    by (subst f2; rewrite unread_consume, length_drop; lia).
  clearbody f2.
  destruct (le_lt_dec 8 (length (unread (input_stream f2)))) as [H8|H8].
  2: { destruct (readInto_ref_short uint64 f2) as (what & f' & Hthrow); [exact H8|].
       erewrite bind_throw by done. eauto. }
  erewrite bind_ok by (apply (readInto_ref_unread uint64); [done | exact H8]).
  change (Z.to_nat (sizeof uint64)) with 8%nat.
  set (f3 := consume f2 8).
  assert (length (unread (input_stream f3)) < 8)%nat as Hrest3
    by (subst f3; rewrite unread_consume, length_drop; lia).
  clearbody f3.
  destruct (readInto_ref_short uint64 f3) as (what & f' & Hthrow); [exact Hrest3|].
  erewrite bind_throw by done. eauto.
Qed.

Lemma readInto_array_holds (T : Type) `{TriviallyCopyable T} (dest : list T) (count : Z)
    (f : File) (bs rest : list byte) :
  holds f (bs ++ rest) -> 0 <= count ->
  Z.of_nat (length bs) = count * sizeof T -> count * sizeof T <= STREAMSIZE_MAX ->
  (Z.to_nat count <= length dest)%nat ->
  readInto_array T dest count f =
    (Ok (array_of_bytes T (Z.to_nat count) bs ++ drop (Z.to_nat count) dest),
     consume f (length bs)).
Proof.
  intros [Hg Hu] Hcount Hlen Hmax Hroom. pose proof (sizeof_bounds (T:=T)) as Hs.
  unfold readInto_array.
  destruct (decide (Z.to_nat count <= length dest)%nat); [|lia].
  destruct (Z.eq_dec count 0) as [->|Hzero].
  - destruct bs; [| cbn in Hlen; lia].
    erewrite bind_ok by apply readInto_zero. by rewrite consume_0.
  - erewrite bind_ok by (apply readInto_enough; [done | lia | done |];
                         rewrite Hu, length_app; lia).
    unfold ret. rewrite Hu.
    replace (Z.to_nat (count * sizeof T)) with (length bs) by lia.
    by rewrite take_app_length.
Qed.

(** X12.  On a good handle that stands before [N] node entries followed by
    [E] edge entries, [readHSGR] with arrays of [N] and [E] elements fills the
    node array from the first [N * sizeof(NodeT)] bytes and the edge array
    from the [E * sizeof(EdgeT)] bytes behind them, and stops right behind the
    edges; a count of zero reads nothing for that array, so a graph without
    edges ends with the node array. *)
Theorem readHSGR_arrays (NodeT EdgeT : Type) `{TriviallyCopyable NodeT}
    `{TriviallyCopyable EdgeT}
    (node_buffer : list NodeT) (edge_buffer : list EdgeT) (N E : uint64) (f : File)
    (node_bytes edge_bytes rest : list byte) :
  holds f (node_bytes ++ edge_bytes ++ rest) ->
  0 <= N -> 0 <= E ->
  length node_buffer = Z.to_nat N -> length edge_buffer = Z.to_nat E ->
  Z.of_nat (length node_bytes) = N * sizeof NodeT ->
  Z.of_nat (length edge_bytes) = E * sizeof EdgeT ->
  Z.of_nat (length (bytes (input_stream f))) <= STREAMSIZE_MAX ->
  readHSGR NodeT EdgeT node_buffer N edge_buffer E f =
    (Ok (array_of_bytes NodeT (Z.to_nat N) node_bytes,
         array_of_bytes EdgeT (Z.to_nat E) edge_bytes),
     consume f (length node_bytes + length edge_bytes)).
Proof.
  intros Hf HN HE Hnodes Hedges Hnb Heb Hsize.
  assert (Z.of_nat (length node_bytes + length edge_bytes) <= STREAMSIZE_MAX) as Hfits.
  { destruct Hf as [_ Hu]. unfold unread in Hu. apply (f_equal length) in Hu.
    rewrite length_drop, !length_app in Hu. lia. }
  unfold readHSGR.
  erewrite bind_ok by (apply (readInto_array_holds NodeT node_buffer N f node_bytes
                                (edge_bytes ++ rest)); (done || lia)).
  apply consume_holds in Hf.
  erewrite bind_ok by (apply (readInto_array_holds EdgeT edge_buffer E _ edge_bytes rest);
                       (done || lia)).
  unfold ret. rewrite consume_consume.
  rewrite <- Hnodes, <- Hedges, !drop_all, !app_nil_r. reflexivity.
Qed.

(** ** [File::readLines] and the names buffer *)

Lemma until_newline_line (line rest : list byte) :
  x0a ∉ line -> until_newline (line ++ x0a :: rest) = (line, true).
Proof.
  induction line as [|b line IH]; intros Hline; [done|].
  apply not_elem_of_cons in Hline as [Hb Hline]. cbn [until_newline app].
  destruct (Byte.eqb b x0a) eqn:Heq; [apply Byte.byte_dec_bl in Heq; congruence|].
  by rewrite IH.
Qed.

Lemma until_newline_tail (tail : list byte) :
  x0a ∉ tail -> until_newline tail = (tail, false).
Proof.
  induction tail as [|b tail IH]; intros Htail; [done|].
  apply not_elem_of_cons in Htail as [Hb Htail]. cbn [until_newline].
  destruct (Byte.eqb b x0a) eqn:Heq; [apply Byte.byte_dec_bl in Heq; congruence|].
  by rewrite IH.
Qed.

Lemma unlines_length (lines : list (list byte)) : (length lines <= length (unlines lines))%nat.
Proof.
  unfold unlines. induction lines as [|line lines IH]; cbn; [lia|].
  rewrite !length_app. cbn. lia.
Qed.

Lemma readLines_loop_unlines (tail : list byte) (lines : list (list byte)) :
  forall (turns : nat) (s : ifstream) (result : list (list byte)),
    good s = true -> unread s = unlines lines ++ tail ->
    Forall (fun line => x0a ∉ line) lines -> x0a ∉ tail ->
    (length lines + 2 <= turns)%nat ->
    readLines_loop turns s result =
      (result ++ lines ++ (if decide (tail = []) then [] else [tail]),
       {| bytes := bytes s; offset := offset s + length (unread s);
          eofbit := true; failbit := true |}).
Proof.
  induction lines as [|line lines IH]; intros turns s result Hg Hu Hlines Htail Hturns.
  - destruct turns as [|[|turns]]; [cbn in Hturns; lia .. |].
    assert (eofbit s = false /\ failbit s = false) as [He Hf].
    { unfold good in Hg. by destruct (eofbit s), (failbit s). }
    cbn [readLines_loop]. unfold getline at 1. rewrite Hg, Hu. cbn [unlines fmap list_fmap concat app].
    rewrite (until_newline_tail tail Htail).
    destruct tail as [|b tail].
    + cbn. rewrite !app_nil_r, Nat.add_0_r. unfold setstate. by rewrite He, Hf.
    + replace (Z.of_nat (length (b :: tail)) =? 0) with false by (symmetry; apply Z.eqb_neq; cbn; lia).
      unfold getline.
      replace (good (setstate (advance s (length (b :: tail))) true false)) with false
        by (unfold good, setstate; cbn; by rewrite orb_true_r).
      destruct (decide (b :: tail = [])); [done|].
      unfold setstate, advance. cbn [bytes offset eofbit failbit].
      by rewrite He, Hf.
  - destruct turns as [|turns]; [cbn in Hturns; lia|].
    apply Forall_cons in Hlines as [Hline Hlines].
    assert (unread s = line ++ x0a :: (unlines lines ++ tail)) as Hu'.
    { rewrite Hu. unfold unlines. cbn. by rewrite <- !app_assoc. }
    cbn [readLines_loop]. unfold getline. rewrite Hg, Hu'.
    rewrite (until_newline_line line _ Hline).
    rewrite (IH turns (advance s (length line + 1)) (result ++ [line])).
    + rewrite <- app_assoc. cbn [app]. f_equal.
      rewrite unread_advance, Hu'. cbn [bytes offset advance]. f_equal.
      rewrite length_drop, !length_app. cbn [length]. rewrite length_app. lia.
    + by rewrite good_advance.
    + rewrite unread_advance, Hu'.
      replace (line ++ x0a :: unlines lines ++ tail)
        with ((line ++ [x0a]) ++ unlines lines ++ tail) by (by rewrite <- app_assoc).
      rewrite drop_app_length'; [done | rewrite length_app; cbn; lia].
    + done.
    + done.
    + cbn in Hturns. lia.
Qed.

(** The turns [readLines] allows for are enough for every line of the file. *)
Lemma readLines_turns (s : ifstream) (lines : list (list byte)) (tail : list byte) :
  unread s = unlines lines ++ tail -> (length lines + 2 <= S (S (length (bytes s))))%nat.
Proof.
  intros Hu. pose proof (unlines_length lines) as Hlen.
  assert (length (unread s) <= length (bytes s))%nat
    by (unfold unread; rewrite length_drop; lia).
  rewrite Hu, length_app in *. lia.
Qed.

(** X13.  Round trip of [readLines] with a writer that ends every line with a
    newline: on a good handle whose remaining content is the lines
    [lines], each followed by a newline, and then an unterminated remainder
    [tail] (no newline inside a line or the remainder), [readLines] returns
    exactly [lines], followed by [tail] as a last line when it is not empty;
    the newlines are dropped, an empty line is kept, and the handle is left
    at the end of the content with both [eofbit] and [failbit] set. *)
Theorem readLines_unlines (f : File) (lines : list (list byte)) (tail : list byte) :
  good (input_stream f) = true ->
  unread (input_stream f) = unlines lines ++ tail ->
  Forall (fun line => x0a ∉ line) lines -> x0a ∉ tail ->
  readLines f =
    (lines ++ (if decide (tail = []) then [] else [tail]),
     with_stream f
       {| bytes := bytes (input_stream f);
          offset := offset (input_stream f) + length (unread (input_stream f));
          eofbit := true; failbit := true |}).
Proof.
  intros Hg Hu Hlines Htail. unfold readLines.
  rewrite (readLines_loop_unlines tail lines _ _ [] Hg Hu Hlines Htail); [done|].
  by apply (readLines_turns _ lines tail).
Qed.

(** Every content is a sequence of newline-terminated lines and a remainder. *)
Lemma unlines_decompose (bs : list byte) :
  exists lines tail,
    bs = unlines lines ++ tail /\ Forall (fun line => x0a ∉ line) lines /\ x0a ∉ tail.
Proof.
  induction bs as [|b bs (lines & tail & -> & Hlines & Htail)].
  - exists [], []. split_and!; [done | done | apply not_elem_of_nil].
  - destruct (Byte.eqb b x0a) eqn:Heq.
    + apply Byte.byte_dec_bl in Heq as ->.
      exists ([] :: lines), tail. split_and!; [done | | done].
      apply Forall_cons. split; [apply not_elem_of_nil | done].
    + assert (b <> x0a) as Hb by (intros ->; by rewrite Byte.byte_dec_lb in Heq).
      destruct lines as [|line lines].
      * exists [], (b :: tail). split_and!; [done | done |].
        apply not_elem_of_cons. split; [congruence | done].
      * apply Forall_cons in Hlines as [Hline Hlines].
        exists ((b :: line) :: lines), tail. split_and!; [done | | done].
        apply Forall_cons. split; [|done].
        apply not_elem_of_cons. split; [congruence | done].
Qed.

Lemma filter_no_newline (line : list byte) :
  x0a ∉ line -> List.filter (fun b => negb (Byte.eqb b x0a)) line = line.
Proof.
  induction line as [|b line IH]; intros Hline; [done|].
  apply not_elem_of_cons in Hline as [Hb Hline]. cbn [List.filter].
  destruct (Byte.eqb b x0a) eqn:Heq; [apply Byte.byte_dec_bl in Heq; congruence|].
  cbn. by rewrite IH.
Qed.

Lemma filter_unlines (lines : list (list byte)) :
  Forall (fun line => x0a ∉ line) lines ->
  List.filter (fun b => negb (Byte.eqb b x0a)) (unlines lines) = concat lines.
Proof.
  induction 1 as [|line lines Hline _ IH]; [done|].
  unfold unlines in *. cbn [fmap list_fmap concat].
  rewrite <- app_assoc, !List.filter_app, IH, (filter_no_newline line Hline). done.
Qed.

(** X14.  The names buffer that [readDatasourceNames] builds from a good
    handle is the remaining content of the file with the newline characters
    taken out, and nothing else: no separator or terminator is stored between
    the names.  The table has one entry per newline-terminated line plus one
    for a non-empty unterminated remainder, and the lengths add up to the
    size of the names buffer.  On a handle that is not good the table is
    empty. *)
Theorem readDatasourceNames_names (f : File) :
  (good (input_stream f) = true ->
   let d := (readDatasourceNames f).1 in
   names d = List.filter (fun b => negb (Byte.eqb b x0a)) (unread (input_stream f))
   /\ length (offsets d) = length (lengths d)
   /\ foldr Nat.add 0%nat (lengths d) = length (names d))
  /\ (good (input_stream f) = false ->
      (readDatasourceNames f).1 = {| names := []; offsets := []; lengths := [] |}).
Proof.
  split.
  - intros Hg.
    destruct (unlines_decompose (unread (input_stream f)))
      as (lines & tail & Hu & Hlines & Htail).
    unfold readDatasourceNames, readLines.
    rewrite (readLines_loop_unlines tail lines _ _ [] Hg Hu Hlines Htail)
      by (by apply (readLines_turns _ lines tail)).
    cbn [fst app]. rewrite foldl_push_name. cbn [names offsets lengths app].
    rewrite starts_length, length_fmap.
    split_and!; [| done |].
    + rewrite Hu, List.filter_app, (filter_unlines lines Hlines),
        (filter_no_newline tail Htail), concat_app.
      destruct (decide (tail = [])) as [->|]; cbn; by rewrite ?app_nil_r.
    + generalize (lines ++ (if decide (tail = []) then [] else [tail])).
      intros l. induction l as [|x l IH]; [done|].
      cbn. rewrite length_app. lia.
  - intros Hg. unfold readDatasourceNames.
    pose proof (readLines_not_good f Hg) as Hnone.
    destruct (readLines f) as [lines f']. cbn [fst] in *. by subst lines.
Qed.

(** ** Arrays read in place *)

Lemma array_of_bytes_lookup (T : Type) `{TriviallyCopyable T} (n : nat) :
  forall (i : nat) (bs : list byte),
    (i < n)%nat ->
    array_of_bytes T n bs !! i =
      Some (from_bytes T (take (Z.to_nat (sizeof T)) (drop (i * Z.to_nat (sizeof T)) bs))).
Proof.
  induction n as [|n IH]; intros i bs Hi; [lia|].
  destruct i as [|i]; cbn [array_of_bytes]; [done|].
  etrans; [apply (IH i (drop (Z.to_nat (sizeof T)) bs)); lia|].
  by rewrite drop_drop.
Qed.

Lemma array_of_uint8 (n : nat) :
  forall bs : list byte,
    (n <= length bs)%nat -> array_of_bytes uint8 n bs = byte_to_Z <$> take n bs.
Proof.
  induction n as [|n IH]; intros bs Hn; [done|].
  destruct bs as [|b bs]; [cbn in Hn; lia|].
  cbn [array_of_bytes]. change (Z.to_nat (sizeof uint8)) with 1%nat.
  change (from_bytes uint8 (take 1 (b :: bs))) with (byte_to_Z b + 256 * 0).
  change (drop 1 (b :: bs)) with bs.
  rewrite IH by (cbn in Hn; lia).
  rewrite Z.add_0_r. reflexivity.
Qed.

(** X15.  [readRamIndex] fills the caller's array in place: after a
    successful call the array has the length it had, element [i] below
    [tree_size] is the object held by the [i]-th chunk of [sizeof(RTreeNodeT)]
    bytes behind the old position, every element from [tree_size] on is the
    one that was there before, and the handle has moved by
    [tree_size * sizeof(RTreeNodeT)] bytes. *)
Theorem readRamIndex_in_place (RTreeNodeT : Type) `{TriviallyCopyable RTreeNodeT}
    (rtree_buffer rtree_buffer' : list RTreeNodeT) (tree_size : uint64) (f f' : File) :
  0 <= tree_size -> tree_size * sizeof RTreeNodeT <= STREAMSIZE_MAX ->
  readRamIndex RTreeNodeT rtree_buffer tree_size f = (Ok rtree_buffer', f') ->
  let size := Z.to_nat (sizeof RTreeNodeT) in
  length rtree_buffer' = length rtree_buffer
  /\ (forall i : nat, (i < Z.to_nat tree_size)%nat ->
        rtree_buffer' !! i =
          Some (from_bytes RTreeNodeT (take size (drop (i * size) (unread (input_stream f))))))
  /\ (forall i : nat, (Z.to_nat tree_size <= i)%nat -> rtree_buffer' !! i = rtree_buffer !! i)
  /\ f' = consume f (Z.to_nat tree_size * size).
Proof.
  intros Hsize Hmax Hread size. pose proof (sizeof_bounds (T:=RTreeNodeT)) as Hs.
  unfold readRamIndex, readInto_array in Hread.
  destruct (decide (Z.to_nat tree_size <= length rtree_buffer)%nat) as [Hroom|]; [|done].
  apply bind_ok_inv in Hread as (stored & f1 & Hread & Hret).
  injection Hret as <- <-.
  assert (length (array_of_bytes RTreeNodeT (Z.to_nat tree_size) stored) = Z.to_nat tree_size)
    as Hlen by apply array_of_bytes_length.
  assert (stored = take (Z.to_nat tree_size * size) (unread (input_stream f))
          /\ f1 = consume f (Z.to_nat tree_size * size)) as [-> ->].
  { destruct (Z.eq_dec tree_size 0) as [->|Hpos].
    - rewrite readInto_zero in Hread. injection Hread as <- <-.
      cbn. by rewrite take_0, consume_0.
    - apply readInto_ok_inv in Hread as (_ & _ & -> & ->); [|lia|done].
      by replace (Z.to_nat (tree_size * sizeof RTreeNodeT))
        with (Z.to_nat tree_size * size)%nat by (subst size; lia). }
  split_and!; [| | |done].
  - rewrite length_app, Hlen, length_drop. lia.
  - intros i Hi. rewrite lookup_app_l by lia.
    rewrite (array_of_bytes_lookup RTreeNodeT _ i _ Hi). fold size.
    f_equal. f_equal.
    assert (i * size + size <= Z.to_nat tree_size * size)%nat by nia.
    rewrite take_drop_commute, take_take, Nat.min_l by done.
    symmetry. apply take_drop_commute.
  - intros i Hi. rewrite lookup_app_r by lia.
    rewrite Hlen, lookup_drop. f_equal. lia.
Qed.

(** X16.  [readDatasourceIndexes] stores the next
    [number_of_datasource_indexes] bytes of the file, one per array element
    and each as a value below 256, over the start of the buffer; the rest of
    the buffer stays and the handle moves by that many bytes. *)
Theorem readDatasourceIndexes_values (datasource_buffer : list uint8) (n : uint64) (f : File) :
  good (input_stream f) = true ->
  0 <= n <= Z.of_nat (length (unread (input_stream f))) ->
  n <= Z.of_nat (length datasource_buffer) ->
  Z.of_nat (length (bytes (input_stream f))) <= STREAMSIZE_MAX ->
  let indexes := byte_to_Z <$> take (Z.to_nat n) (unread (input_stream f)) in
  readDatasourceIndexes datasource_buffer n f =
    (Ok (indexes ++ drop (Z.to_nat n) datasource_buffer), consume f (Z.to_nat n))
  /\ Forall (fun index => 0 <= index < 256) indexes.
Proof.
  intros Hg Hn Hroom Hsize indexes. split.
  - assert (length (unread (input_stream f)) <= length (bytes (input_stream f)))%nat
      by (unfold unread; rewrite length_drop; lia).
    unfold readDatasourceIndexes.
    rewrite (readInto_array_holds uint8 datasource_buffer n f
               (take (Z.to_nat n) (unread (input_stream f)))
               (drop (Z.to_nat n) (unread (input_stream f)))).
    + rewrite length_take, Nat.min_l by lia.
      rewrite array_of_uint8 by (rewrite length_take; lia).
      by rewrite take_take, Nat.min_id.
    + split; [done | by rewrite take_drop].
    + lia.
    + rewrite length_take. change (sizeof uint8) with 1. lia.
    + change (sizeof uint8) with 1. lia.
    + lia.
  - subst indexes. apply Forall_fmap, Forall_forall. intros b _. apply byte_to_Z_range.
Qed.

(** X17.  [readProperties] with the count that [readPropertiesCount] returns
    reads exactly one record: on a good handle with a whole record left, it
    replaces the first element of the caller's array by the object of the next
    [sizeof(ProfileProperties)] bytes and leaves the others; with less than a
    record left it throws. *)
Theorem readProperties_one (ProfileProperties : Type) `{TriviallyCopyable ProfileProperties}
    (first : ProfileProperties) (others : list ProfileProperties) (f : File) :
  let size := Z.to_nat (sizeof ProfileProperties) in
  (good (input_stream f) = true ->
   (size <= length (unread (input_stream f)))%nat ->
   readProperties ProfileProperties (first :: others) readPropertiesCount f =
     (Ok (from_bytes ProfileProperties (take size (unread (input_stream f))) :: others),
      consume f size))
  /\ ((length (unread (input_stream f)) < size)%nat ->
      exists what f',
        readProperties ProfileProperties (first :: others) readPropertiesCount f =
          (Throw what, f')).
Proof.
  intros size. pose proof (sizeof_bounds (T:=ProfileProperties)) as Hs.
  unfold readProperties, readInto_array, readPropertiesCount.
  destruct (decide (Z.to_nat 1 <= length (first :: others))%nat) as [_|Hno];
    [| cbn in Hno; lia].
  split.
  - intros Hg Hlen.
    erewrite bind_ok by (apply readInto_enough; (done || lia)).
    unfold ret. rewrite Z.mul_1_l. fold size.
    change (Z.to_nat 1) with 1%nat. cbn [array_of_bytes drop app].
    fold size. by rewrite take_take, Nat.min_id.
  - intros Hshort.
    destruct (readInto_short ProfileProperties 1 f) as [f' Hthrow]; [lia | lia | lia |].
    erewrite bind_throw by exact Hthrow. eauto.
Qed.

(** ** The constructor, failing *)

(** X18.  The three ways in which the constructor fails before any
    fingerprint is compared, each with its own message: a path that cannot
    be opened ([Error opening], with the text of [errno] appended right after
    the colon), an empty file opened with the fingerprint check ([Error
    reading from], with the text of [errno]), and a file that ends inside
    the fingerprint ([Unexpected end of file]).  Without the check, every
    file that can be opened is, at offset zero, whatever it holds. *)
Theorem File_open_errors (fs : gmap string (list byte)) (path : string) (content : list byte) :
  (fs !! path = None ->
   forall check_fingerprint,
     File_open fs path check_fingerprint =
       Throw ("Error opening " +:+ path +:+ ":" +:+ strerror_errno))
  /\ (fs !! path = Some [] ->
      File_open fs path true =
        Throw ("Error reading from " +:+ path +:+ ": " +:+ strerror_errno))
  /\ (fs !! path = Some content ->
      0 < Z.of_nat (length content) < sizeof FingerPrint ->
      File_open fs path true =
        Throw ("Error reading from " +:+ path +:+ ": Unexpected end of file"))
  /\ (fs !! path = Some content ->
      File_open fs path false =
        Ok {| filename := path; input_stream := ifstream_open content |}).
Proof.
  pose proof (sizeof_bounds (T:=FingerPrint)) as Hs.
  split_and!.
  - intros Hfs check. unfold File_open. by rewrite Hfs.
  - intros Hfs. unfold File_open. rewrite Hfs.
    set (this := {| filename := path; input_stream := ifstream_open [] |}).
    pose proof (readInto_at_end FingerPrint 1 this ltac:(lia) (or_intror eq_refl)) as Hend.
    unfold readAndCheckFingerprint, readOne, readInto_ref, bind.
    destruct (readInto FingerPrint 1 this) as [r f']. cbn [fst] in Hend. by subst r.
  - intros Hfs Hlen. unfold File_open. rewrite Hfs.
    set (this := {| filename := path; input_stream := ifstream_open content |}).
    assert (unread (input_stream this) = content) as Hu by apply drop_0.
    destruct (readInto_short FingerPrint 1 this) as [f' Hthrow]; [lia | lia | rewrite Hu; lia |].
    unfold readAndCheckFingerprint, readOne, readInto_ref, bind. rewrite Hthrow.
    rewrite Hu. change (good (input_stream this)) with true.
    destruct content; [cbn in Hlen; lia | done].
  - intros Hfs. unfold File_open. by rewrite Hfs.
Qed.

(** ** [readNodes] on a truncated file *)

Lemma readNodes_loop_truncated (turns : nat) :
  forall (i : nat) (coordinate_list : list Coordinate) (osmnodeid_list : list OSMNodeID)
         (f : File),
    good (input_stream f) = true ->
    (length (unread (input_stream f)) < turns * Z.to_nat (sizeof QueryNode))%nat ->
    (i + turns <= length coordinate_list)%nat ->
    exists f',
      (exists what, readNodes_loop turns i coordinate_list osmnodeid_list f = (Throw what, f'))
      \/ (assertions_disabled = false
          /\ readNodes_loop turns i coordinate_list osmnodeid_list f =
               (AssertFail "coordinate_list[i].IsValid()", f')).
Proof.
  induction turns as [|turns IH]; intros i coordinate_list osmnodeid_list f Hg Hbytes Hroom;
    [simpl in Hbytes; lia|].
  cbn [readNodes_loop].
  destruct (le_lt_dec (Z.to_nat (sizeof QueryNode)) (length (unread (input_stream f))))
    as [Hone|Hnone].
  - erewrite bind_ok by (by apply readInto_ref_unread).
    erewrite bind_ok by (apply store_at_in_range; lia).
    unfold bind at 1, BOOST_ASSERT.
    destruct assertions_disabled eqn:Hbuild.
    + apply IH; [done | rewrite unread_consume, length_drop; lia | rewrite length_insert; lia].
    + destruct (from_option IsValid true _).
      * apply IH; [done | rewrite unread_consume, length_drop; lia
                  | rewrite length_insert; lia].
      * eauto.
  - destruct (readInto_ref_short QueryNode f Hnone) as (what & f' & Hthrow).
    erewrite bind_throw by exact Hthrow. eauto.
Qed.

(** X19.  With room for the coordinates and a good handle, [readNodes] on a
    file that holds fewer than [number_of_coordinates] records never returns
    normally: the read that meets the end of the file throws, unless an
    assertion on an earlier coordinate has stopped the run first, which
    happens only in a build where assertions are active. *)
Theorem readNodes_truncated (coordinate_list : list Coordinate)
    (osmnodeid_list : list OSMNodeID) (number_of_coordinates : uint64) (f : File) :
  good (input_stream f) = true ->
  (Z.to_nat number_of_coordinates <= length coordinate_list)%nat ->
  (length (unread (input_stream f))
     < Z.to_nat number_of_coordinates * Z.to_nat (sizeof QueryNode))%nat ->
  exists f',
    (exists what,
       readNodes coordinate_list osmnodeid_list number_of_coordinates f = (Throw what, f'))
    \/ (assertions_disabled = false
        /\ readNodes coordinate_list osmnodeid_list number_of_coordinates f =
             (AssertFail "coordinate_list[i].IsValid()", f')).
Proof.
  intros Hg Hroom Hbytes. unfold readNodes. by apply readNodes_loop_truncated.
Qed.

End StorageIO.

(** * The definitions at work on the sample files *)

(** C1 (as amended) on [short_sample]: two 32-bit words are asked for, five
    bytes are there. *)
Lemma readInto_short_read_witness :
  (exists f',
     readInto "Success" uint32 2 short_sample =
       (Throw "Error reading from sample.bin: Unexpected end of file", f'))
  /\ "Error reading from sample.bin: Success"
       <> "Error reading from sample.bin: Unexpected end of file"
  /\ readInto "Success" uint32 0 short_sample = (Ok [], short_sample).
Proof.
  pose proof (readInto_short_read "Success" uint32 2 short_sample) as H.
  vm_compute in H |- *. apply H; done.
Defined.

(** The claim C1 as it was stated fails where the byte count wraps: for
    [2^62 + 1] 32-bit words the product in [std::size_t] is 4, so on the five
    bytes of [short_sample], far fewer than the words asked for, the call
    returns normally with the one word it has read. *)
Lemma readInto_count_wraps :
  0 < 2 ^ 62 + 1 < 2 ^ 64
  /\ Z.of_nat (length (unread (input_stream short_sample))) < (2 ^ 62 + 1) * sizeof uint32
  /\ readInto "Success" uint32 (2 ^ 62 + 1) short_sample =
       (Ok [x01; x02; x03; x04], consume short_sample 4).
Proof. by vm_compute. Qed.

(** C2 on [fs_sample]: the magic number of the file is not that of the build. *)
Lemma File_open_fingerprint_witness :
  File_open "Success" (FingerPrint_copyable := FingerPrint_sample) valid_sample
    fs_sample "foreign.hsgr" true
  = Throw "Fingerprint mismatch in foreign.hsgr".
Proof.
  refine (proj2 (proj2
            (File_open_fingerprint "Success" (FingerPrint_copyable := FingerPrint_sample)
               valid_sample fs_sample "foreign.hsgr"
               (fingerprint_bytes foreign_magic_sample) [x00; x00] _ _)) _);
    by vm_compute.
Defined.

(** C5 on [vector_sample]: the count is two, the words are 7 and 9. *)
Lemma deserializeVector_length_prefixed_witness :
  exists data',
    deserializeVector "Success" uint32 [1; 2; 3] vector_sample =
      (Ok data', consume vector_sample 16)
    /\ Z.of_nat (length data') = 2
    /\ concat (to_bytes uint32 <$> data') = le_encode 4 7 ++ le_encode 4 9
    /\ data' = [7; 9].
Proof.
  exact (deserializeVector_length_prefixed "Success" uint32 [1; 2; 3] vector_sample
           (le_encode 8 2) (le_encode 4 7 ++ le_encode 4 9) [xff]
           ltac:(by vm_compute) ltac:(by vm_compute) ltac:(by vm_compute)
           ltac:(by vm_compute)).
Defined.


(** C8 on [vector_sample]: skipping the count as two 32-bit words. *)
Lemma skip_then_readInto_witness :
  skip uint32 2 vector_sample = fresh_at vector_sample 8
  /\ (readInto "Success" uint32 1 (skip uint32 2 vector_sample)).1 = Ok (le_encode 4 7).
Proof.
  assert (Z.of_nat (offset (input_stream vector_sample)) + 2 * sizeof uint32
          <= STREAMSIZE_MAX) as Hrange by (by vm_compute).
  assert (settled (input_stream vector_sample)) as Hsettled by (left; reflexivity).
  pose proof (skip_then_readInto "Success" uint32 2 1 vector_sample
                ltac:(lia) Hrange Hsettled) as H.
  cbv zeta in H. destruct H as (H1 & H2 & _).
  split; [vm_compute in H1 |- *; exact H1 | vm_compute in H2 |- *; exact H2].
Defined.

(** The claim C8 as it was stated fails where the byte span wraps around:
    [2^62] words of four bytes are a span of [2^64] bytes, that is none.  The
    handle stays where it was and the read that follows delivers the first
    word of the file, although the file ends long before offset [2^64]. *)
Lemma skip_wraps_around :
  skip uint32 (2 ^ 62) short_sample = short_sample
  /\ (readInto "Success" uint32 1 (skip uint32 (2 ^ 62) short_sample)).1
     = Ok [x01; x02; x03; x04].
Proof. by vm_compute. Qed.

(** C3 (as amended) on a header with no nodes and five edges, in a build with
    assertions. *)
Lemma readHSGRHeader_node_count_witness :
  (readHSGRHeader "Success" (FingerPrint_copyable := FingerPrint_sample) valid_sample false
     (hsgr_sample valid_sample empty_graph_header)).1.1
  = AssertFail "number of nodes is zero".
Proof.
  pose proof (readHSGRHeader_node_count "Success" (FingerPrint_copyable := FingerPrint_sample)
                valid_sample false (hsgr_sample valid_sample empty_graph_header)
                (fingerprint_bytes valid_sample) (le_encode 4 7) (le_encode 8 0)
                (le_encode 8 5) []
                ltac:(by vm_compute) ltac:(by vm_compute) ltac:(by vm_compute)
                ltac:(by vm_compute) ltac:(by vm_compute)) as H.
  cbv zeta in H. destruct H as (H & _). by apply H.
Defined.

(** The claim C3 as it was stated fails in the release build: the same header,
    no nodes and five edges, is returned. *)
Lemma readHSGRHeader_zero_nodes_release :
  number_of_nodes empty_graph_header = 0
  /\ 0 < number_of_edges empty_graph_header
  /\ (readHSGRHeader "Success" (FingerPrint_copyable := FingerPrint_sample) valid_sample true
        (hsgr_sample valid_sample empty_graph_header)).1.1
     = Ok empty_graph_header.
Proof. by vm_compute. Qed.


(** C4 (as amended) on [edges_sample]. *)
Lemma readEdges_parallel_lists_witness :
  readEdges "Success" (OriginalEdgeData_copyable := OriginalEdgeData_sample)
    no_edges 2 edges_sample = (Ok edges_result, consume edges_sample 32)
  /\ length (edge_list_lengths edges_result) = 8%nat
  /\ take 2 (geometry_list edges_result) = [11; 21]
  /\ take 2 (post_turn_bearing_list edges_result) = [18; 28].
Proof.
  assert (readEdges "Success" (OriginalEdgeData_copyable := OriginalEdgeData_sample)
            no_edges 2 edges_sample = (Ok edges_result, consume edges_sample 32))
    as Hrun by (by vm_compute).
  pose proof (readEdges_parallel_lists "Success"
                (OriginalEdgeData_copyable := OriginalEdgeData_sample)
                no_edges edges_result 2 edges_sample (consume edges_sample 32) Hrun) as H.
  cbv zeta in H.
  destruct H as (H8 & _ & _ & _ & _ & Hgeometry & _ & _ & _ & _ & _ & _ & Hpost & _).
  split; [exact Hrun|]. split; [exact H8|].
  vm_compute in Hgeometry, Hpost |- *. by split.
Defined.

(** The claim C4 as it was stated fails on the count: the run over
    [edges_sample] fills eight sequences, the two bearings among them. *)
Lemma readEdges_eight_lists :
  (readEdges "Success" (OriginalEdgeData_copyable := OriginalEdgeData_sample)
     no_edges 2 edges_sample).1 = Ok edges_result
  /\ pre_turn_bearing_list edges_result = [17; 27]
  /\ post_turn_bearing_list edges_result = [18; 28]
  /\ length (edge_list_lengths edges_result) <> 7%nat.
Proof. by vm_compute. Qed.

(** C7 (as amended) on [nodes_sample], in a build with assertions: the second
    record is the first that is not valid. *)
Lemma readNodes_lock_step_witness :
  readNodes "Success" (QueryNode_copyable := QueryNode_sample) IsValid_sample false
    [origin; origin] [] 2 nodes_sample
  = (AssertFail "coordinate_list[i].IsValid()", consume nodes_sample 32).
Proof.
  pose proof (readNodes_lock_step "Success" (QueryNode_copyable := QueryNode_sample)
                IsValid_sample false [origin; origin] [] 2 nodes_sample) as H.
  cbv zeta in H.
  destruct H as (_ & H); [by vm_compute | by vm_compute | by vm_compute |].
  apply (H eq_refl 1%nat far_east); [by vm_compute | by vm_compute |].
  intros [|j] r' Hj Hr'; [|lia]. vm_compute in Hr'. by injection Hr' as <-.
Defined.

(** The claim C7 as it was stated fails in the release build: the run over
    [nodes_sample] succeeds and stores the coordinate that is not valid. *)
Lemma readNodes_invalid_release :
  IsValid_sample (coordinate_of far_east) = false
  /\ (readNodes "Success" (QueryNode_copyable := QueryNode_sample) IsValid_sample true
        [origin; origin] [] 2 nodes_sample).1
     = Ok ([ {| coordinate_lon := 1000000; coordinate_lat := 1000000 |};
             coordinate_of far_east ], [10; 20]).
Proof. by vm_compute. Qed.

(** C10 on a stream of three bytes. *)
Lemma free_readElementCount_unchecked_witness :
  (io.readElementCount64 (ifstream_open [x01; x02; x03])).1 = 197121
  /\ exists what,
       (readElementCount64 "Success"
          {| filename := "sample.count";
             input_stream := ifstream_open [x01; x02; x03] |}).1 = Throw what.
Proof.
  pose proof (free_readElementCount_unchecked "Success" (ifstream_open [x01; x02; x03])
                "sample.count") as H.
  cbv zeta in H. destruct H as (H & _).
  assert (length (if good (ifstream_open [x01; x02; x03])
                  then unread (ifstream_open [x01; x02; x03]) else []) < 8)%nat
    as Hshort by (vm_compute; lia).
  destruct (H Hshort) as (Hvalue & _ & _ & Hthrow).
  split; [vm_compute in Hvalue |- *; exact Hvalue | exact Hthrow].
Defined.

(** [readDatasourceNames] on the two lines "ab" and "c". *)
Example readDatasourceNames_sample :
  (readDatasourceNames
     {| filename := "sample.datasource_names";
        input_stream := ifstream_open [x61; x62; x0a; x63; x0a] |}).1
  = {| names := [x61; x62; x63]; offsets := [0; 2]%nat; lengths := [2; 1]%nat |}.
Proof. reflexivity. Qed.

(** ** The further properties on the sample files *)

Lemma no_newline_check (line : list byte) :
  forallb (fun b => negb (Byte.eqb b x0a)) line = true -> x0a ∉ line.
Proof.
  induction line as [|b line IH]; intros Hall; [apply not_elem_of_nil|].
  cbn [forallb] in Hall. apply andb_prop in Hall as [Hb Hall].
  apply not_elem_of_cons. split; [|by apply IH].
  intros <-. by rewrite Byte.byte_dec_lb in Hb.
Qed.

(** X1 on [short_sample]: two 32-bit words cannot be read from five bytes. *)
Lemma readInto_exact_witness :
  (exists stored f', readInto "Success" uint32 2 short_sample = (Ok stored, f'))
  <-> good (input_stream short_sample) = true
      /\ (Z.to_nat (2 * sizeof uint32) <= length (unread (input_stream short_sample)))%nat.
Proof.
  assert (0 < 2) as H1 by lia.
  assert (2 * sizeof uint32 <= STREAMSIZE_MAX) as H2 by (by vm_compute).
  exact (proj1 (readInto_exact "Success" uint32 2 short_sample H1 H2)).
Defined.

(** X2 on [short_sample]: two bytes and then three are the five read at once. *)
Lemma readInto_in_sequence_witness :
  readInto "Success" uint8 (2 + 3) short_sample =
    (Ok ([x01; x02] ++ [x03; x04; x05]), consume (consume short_sample 2) 3).
Proof.
  assert (0 < 2) as H1 by lia.
  assert (0 < 3) as H2 by lia.
  assert ((2 + 3) * sizeof uint8 <= STREAMSIZE_MAX) as H3 by (by vm_compute).
  assert (readInto "Success" uint8 2 short_sample = (Ok [x01; x02], consume short_sample 2))
    as H4 by (by vm_compute).
  assert (readInto "Success" uint8 3 (consume short_sample 2) =
            (Ok [x03; x04; x05], consume (consume short_sample 2) 3))
    as H5 by (by vm_compute).
  exact (readInto_in_sequence "Success" uint8 2 3 short_sample _ _ _ _ H1 H2 H3 H4 H5).
Defined.

(** X3 on [short_sample]: after the short read of two words, not even one
    byte can be read, with or without a skip back to where bytes are. *)
Lemma readInto_failure_is_final_witness :
  (readInto "Success" uint8 1 (readInto "Success" uint32 2 short_sample).2).1 =
    Throw ("Error reading from " +:+ filename short_sample +:+ ": " +:+ "Success").
Proof.
  assert (size_t_wrap (2 * sizeof uint32) <> 0) as H1 by (by vm_compute).
  assert (readInto "Success" uint32 2 short_sample =
            (Throw "Error reading from sample.bin: Unexpected end of file",
             (readInto "Success" uint32 2 short_sample).2)) as H3 by (by vm_compute).
  assert (1 <> 0) as H4 by lia.
  exact (proj1 (readInto_failure_is_final "Success" uint32 uint8 uint32 2 1 1
                  short_sample _ _ H1 H3 H4)).
Defined.

(** X4 on [vector_sample]: skipping two words and then one is skipping three. *)
Lemma skip_adds_up_witness :
  skip uint32 1 (skip uint32 2 vector_sample) = skip uint32 (1 + 2) vector_sample.
Proof.
  assert (0 <= 1) as H1 by lia.
  assert (0 <= 2) as H2 by lia.
  assert (Z.of_nat (offset (input_stream vector_sample)) + (1 + 2) * sizeof uint32
          <= STREAMSIZE_MAX) as H3 by (by vm_compute).
  exact (proj1 (skip_adds_up uint32 1 2 vector_sample H1 H2 H3)).
Defined.

(** X5 on [vector_sample]. *)
Lemma File_size_cases_witness :
  File_size vector_sample =
    (Z.of_nat (length (bytes (input_stream vector_sample))), vector_sample).
Proof.
  assert (good (input_stream vector_sample) = true) as H1 by (by vm_compute).
  assert (Z.of_nat (offset (input_stream vector_sample)) <= STREAMSIZE_MAX) as H2
    by (by vm_compute).
  assert (Z.of_nat (length (bytes (input_stream vector_sample))) <= STREAMSIZE_MAX) as H3
    by (by vm_compute).
  exact (proj1 (File_size_cases vector_sample) H1 H2 H3).
Defined.

(** X6 on [timestamp_sample]. *)
Lemma readNumberOfBytes_then_readTimestamp_witness :
  readTimestamp (readNumberOfBytes timestamp_sample).2 [x00; x00; x00; x00]
    (readNumberOfBytes timestamp_sample).1
  = (Ok (bytes timestamp_sample),
     {| bytes := bytes timestamp_sample; offset := length (bytes timestamp_sample);
        eofbit := false; failbit := false |}).
Proof.
  assert (failbit timestamp_sample = false) as H1 by (by vm_compute).
  assert (Z.of_nat (length (bytes timestamp_sample)) <= STREAMSIZE_MAX) as H2
    by (by vm_compute).
  assert (length [x00; x00; x00; x00] = length (bytes timestamp_sample)) as H3
    by (by vm_compute).
  exact (proj2 (readNumberOfBytes_then_readTimestamp timestamp_sample
                  [x00; x00; x00; x00] H1 H2 H3)).
Defined.

(** X7 on [timestamp_sample]: six characters are asked for, four are there. *)
Lemma readTimestamp_unchecked_witness :
  exists s',
    readTimestamp timestamp_sample [x2e; x2e; x2e; x2e; x2e; x2e] 6 =
      (Ok (unread timestamp_sample
             ++ drop (length (unread timestamp_sample)) [x2e; x2e; x2e; x2e; x2e; x2e]), s')
    /\ failbit s' = true.
Proof.
  assert (good timestamp_sample = true) as H1 by (by vm_compute).
  assert (Z.of_nat (length (unread timestamp_sample)) < 6 <= STREAMSIZE_MAX) as H2
    by (by vm_compute).
  assert (6 = Z.of_nat (length [x2e; x2e; x2e; x2e; x2e; x2e])) as H3 by (by vm_compute).
  exact (readTimestamp_unchecked timestamp_sample [x2e; x2e; x2e; x2e; x2e; x2e] 6 H1 H2 H3).
Defined.

(** X8 on [fs_build_sample]: the checked constructor stops behind the
    fingerprint. *)
Lemma File_open_returns_witness :
  offset (input_stream
            (consume {| filename := "build.hsgr";
                        input_stream :=
                          ifstream_open (fingerprint_bytes valid_sample ++ le_encode 4 7) |}
               20))
  = Z.to_nat (sizeof (TriviallyCopyable := FingerPrint_sample) FingerPrint).
Proof.
  assert (File_open "Success" (FingerPrint_copyable := FingerPrint_sample) valid_sample
            fs_build_sample "build.hsgr" true =
          Ok (consume {| filename := "build.hsgr";
                         input_stream :=
                           ifstream_open (fingerprint_bytes valid_sample ++ le_encode 4 7) |}
                20)) as H1 by (by vm_compute).
  pose proof (File_open_returns "Success" (FingerPrint_copyable := FingerPrint_sample)
                valid_sample fs_build_sample "build.hsgr" true _ H1) as H.
  cbv zeta in H. destruct H as (_ & _ & _ & _ & H).
  destruct (H eq_refl) as (Hoffset & _). exact Hoffset.
Defined.

(** X9 on [vector_sample]. *)
Lemma deserializeVector_returns_witness :
  [7; 9] =
    array_of_bytes uint32
      (Z.to_nat (le_decode (take 8 (unread (input_stream vector_sample)))))
      (drop 8 (unread (input_stream vector_sample))).
Proof.
  assert (deserializeVector "Success" uint32 [] vector_sample =
            (Ok [7; 9], consume vector_sample 16)) as H1 by (by vm_compute).
  pose proof (deserializeVector_returns "Success" uint32 [] [7; 9] vector_sample
                (consume vector_sample 16) H1) as H.
  cbv zeta in H. destruct H as (_ & _ & _ & _ & H & _). exact H.
Defined.

(** X10 on [edges_sample]: two records are there, three are not. *)
Lemma readEdges_all_or_nothing_witness :
  exists what f',
    readEdges "Success" (OriginalEdgeData_copyable := OriginalEdgeData_sample)
      {| geometry_list := [0; 0; 0]; name_id_list := [0; 0; 0];
         turn_instruction_list := [0; 0; 0]; lane_data_id_list := [0; 0; 0];
         travel_mode_list := [0; 0; 0]; entry_class_id_list := [0; 0; 0];
         pre_turn_bearing_list := [0; 0; 0]; post_turn_bearing_list := [0; 0; 0] |}
      3 edges_sample = (Throw what, f').
Proof.
  assert (good (input_stream edges_sample) = true) as H1 by (by vm_compute).
  assert (Forall (fun n => (Z.to_nat 3 <= n)%nat)
            (edge_list_lengths
               {| geometry_list := [0; 0; 0]; name_id_list := [0; 0; 0];
                  turn_instruction_list := [0; 0; 0]; lane_data_id_list := [0; 0; 0];
                  travel_mode_list := [0; 0; 0]; entry_class_id_list := [0; 0; 0];
                  pre_turn_bearing_list := [0; 0; 0]; post_turn_bearing_list := [0; 0; 0] |}))
    as H2 by (vm_compute; repeat constructor).
  assert (length (unread (input_stream edges_sample))
          < Z.to_nat 3 * Z.to_nat (sizeof (TriviallyCopyable := OriginalEdgeData_sample)
                                      OriginalEdgeData))%nat
    as H3 by (vm_compute; lia).
  exact (proj2 (readEdges_all_or_nothing "Success"
                  (OriginalEdgeData_copyable := OriginalEdgeData_sample) _ 3 edges_sample
                  H1 H2) H3).
Defined.

(** X11 on [short_sample], read as a [.hsgr] file. *)
Lemma readHSGRHeader_truncated_witness :
  exists what f' warnings,
    readHSGRHeader "Success" (FingerPrint_copyable := FingerPrint_sample) valid_sample false
      short_sample = (Throw what, f', warnings).
Proof.
  assert (length (unread (input_stream short_sample))
          < Z.to_nat (sizeof (TriviallyCopyable := FingerPrint_sample) FingerPrint) + 20)%nat
    as H1 by (vm_compute; lia).
  exact (readHSGRHeader_truncated "Success" (FingerPrint_copyable := FingerPrint_sample)
           valid_sample false short_sample H1).
Defined.

(** X12 on [short_sample]: one 32-bit node entry and one 8-bit edge entry. *)
Lemma readHSGR_arrays_witness :
  readHSGR "Success" uint32 uint8 [0] 1 [0] 1 short_sample =
    (Ok (array_of_bytes uint32 (Z.to_nat 1) [x01; x02; x03; x04],
         array_of_bytes uint8 (Z.to_nat 1) [x05]),
     consume short_sample (length [x01; x02; x03; x04] + length [x05])).
Proof.
  assert (holds short_sample ([x01; x02; x03; x04] ++ [x05] ++ [])) as H1
    by (split; by vm_compute).
  assert (0 <= 1) as H2 by lia.
  assert (length [0] = Z.to_nat 1) as H3 by (by vm_compute).
  assert (Z.of_nat (length [x01; x02; x03; x04]) = 1 * sizeof uint32) as H4 by (by vm_compute).
  assert (Z.of_nat (length [x05]) = 1 * sizeof uint8) as H5 by (by vm_compute).
  assert (Z.of_nat (length (bytes (input_stream short_sample))) <= STREAMSIZE_MAX) as H6
    by (by vm_compute).
  exact (readHSGR_arrays "Success" uint32 uint8 [0] [0] 1 1 short_sample
           [x01; x02; x03; x04] [x05] [] H1 H2 H2 H3 H3 H4 H5 H6).
Defined.

(** X13 on [names_sample]: three lines, the second empty, the third not
    terminated. *)
Lemma readLines_unlines_witness :
  (readLines names_sample).1
  = [[x61; x62]; []] ++ (if decide ([x63; x64] = []) then [] else [[x63; x64]]).
Proof.
  assert (good (input_stream names_sample) = true) as H1 by (by vm_compute).
  assert (unread (input_stream names_sample) = unlines [[x61; x62]; []] ++ [x63; x64]) as H2
    by (by vm_compute).
  assert (Forall (fun line => x0a ∉ line) [[x61; x62]; []]) as H3
    by (repeat constructor; by apply no_newline_check).
  assert (x0a ∉ [x63; x64]) as H4 by (by apply no_newline_check).
  exact (f_equal fst (readLines_unlines names_sample [[x61; x62]; []] [x63; x64]
                        H1 H2 H3 H4)).
Defined.

(** X14 on [names_sample]. *)
Lemma readDatasourceNames_names_witness :
  names (readDatasourceNames names_sample).1
  = List.filter (fun b => negb (Byte.eqb b x0a)) (unread (input_stream names_sample)).
Proof.
  assert (good (input_stream names_sample) = true) as H1 by (by vm_compute).
  exact (proj1 (proj1 (readDatasourceNames_names names_sample) H1)).
Defined.

(** X15 on [short_sample]: one word is read into an array of three. *)
Lemma readRamIndex_in_place_witness :
  length [67305985; 0; 0] = length [0; 0; 0]
  /\ consume short_sample 4 = consume short_sample (Z.to_nat 1 * Z.to_nat (sizeof uint32)).
Proof.
  assert (0 <= 1) as H1 by lia.
  assert (1 * sizeof uint32 <= STREAMSIZE_MAX) as H2 by (by vm_compute).
  assert (readRamIndex "Success" uint32 [0; 0; 0] 1 short_sample =
            (Ok [67305985; 0; 0], consume short_sample 4)) as H3 by (by vm_compute).
  pose proof (readRamIndex_in_place "Success" uint32 [0; 0; 0] [67305985; 0; 0] 1
                short_sample (consume short_sample 4) H1 H2 H3) as H.
  cbv zeta in H. destruct H as (Hlength & _ & _ & Hposition).
  split; [exact Hlength | exact Hposition].
Defined.

(** X16 on [short_sample]: two indexes into a buffer of three. *)
Lemma readDatasourceIndexes_values_witness :
  readDatasourceIndexes "Success" [0; 0; 0] 2 short_sample =
    (Ok ((byte_to_Z <$> take (Z.to_nat 2) (unread (input_stream short_sample)))
           ++ drop (Z.to_nat 2) [0; 0; 0]),
     consume short_sample (Z.to_nat 2)).
Proof.
  assert (good (input_stream short_sample) = true) as H1 by (by vm_compute).
  assert (0 <= 2 <= Z.of_nat (length (unread (input_stream short_sample)))) as H2
    by (by vm_compute).
  assert (2 <= Z.of_nat (length [0; 0; 0])) as H3 by (by vm_compute).
  assert (Z.of_nat (length (bytes (input_stream short_sample))) <= STREAMSIZE_MAX) as H4
    by (by vm_compute).
  exact (proj1 (readDatasourceIndexes_values "Success" [0; 0; 0] 2 short_sample
                  H1 H2 H3 H4)).
Defined.

(** X17 on [short_sample], the properties record being one 32-bit word. *)
Lemma readProperties_one_witness :
  readProperties "Success" uint32 [0] readPropertiesCount short_sample =
    (Ok [from_bytes uint32
           (take (Z.to_nat (sizeof uint32)) (unread (input_stream short_sample)))],
     consume short_sample (Z.to_nat (sizeof uint32))).
Proof.
  assert (good (input_stream short_sample) = true) as H1 by (by vm_compute).
  assert (Z.to_nat (sizeof uint32) <= length (unread (input_stream short_sample)))%nat as H2
    by (vm_compute; lia).
  exact (proj1 (readProperties_one "Success" uint32 0 [] short_sample) H1 H2).
Defined.

(** X18 on [fs_build_sample]: a missing file, an empty file and a file of two
    bytes. *)
Lemma File_open_errors_witness :
  File_open "No such file or directory" (FingerPrint_copyable := FingerPrint_sample)
    valid_sample fs_build_sample "missing.hsgr" false
  = Throw ("Error opening " +:+ "missing.hsgr" +:+ ":" +:+ "No such file or directory")
  /\ File_open "Success" (FingerPrint_copyable := FingerPrint_sample)
       valid_sample fs_build_sample "cut.hsgr" true
     = Throw ("Error reading from " +:+ "cut.hsgr" +:+ ": Unexpected end of file").
Proof.
  assert (fs_build_sample !! "missing.hsgr" = None) as H1 by (by vm_compute).
  assert (fs_build_sample !! "cut.hsgr" = Some [x4f; x53]) as H2 by (by vm_compute).
  assert (0 < Z.of_nat (length [x4f; x53])
          < sizeof (TriviallyCopyable := FingerPrint_sample) FingerPrint) as H3
    by (by vm_compute).
  split.
  - exact (proj1 (File_open_errors "No such file or directory"
                    (FingerPrint_copyable := FingerPrint_sample) valid_sample
                    fs_build_sample "missing.hsgr" []) H1 false).
  - exact (proj1 (proj2 (proj2 (File_open_errors "Success"
                                  (FingerPrint_copyable := FingerPrint_sample) valid_sample
                                  fs_build_sample "cut.hsgr" [x4f; x53]))) H2 H3).
Defined.

(** X19 on [nodes_sample] in a build without assertions: three records are
    asked for, two are there. *)
Lemma readNodes_truncated_witness :
  exists f',
    (exists what,
       readNodes "Success" (QueryNode_copyable := QueryNode_sample) IsValid_sample true
         [origin; origin; origin] [] 3 nodes_sample = (Throw what, f'))
    \/ (true = false
        /\ readNodes "Success" (QueryNode_copyable := QueryNode_sample) IsValid_sample true
             [origin; origin; origin] [] 3 nodes_sample
           = (AssertFail "coordinate_list[i].IsValid()", f')).
Proof.
  assert (good (input_stream nodes_sample) = true) as H1 by (by vm_compute).
  assert (Z.to_nat 3 <= length [origin; origin; origin])%nat as H2 by (vm_compute; lia).
  assert (length (unread (input_stream nodes_sample))
          < Z.to_nat 3 * Z.to_nat (sizeof (TriviallyCopyable := QueryNode_sample) QueryNode))%nat
    as H3 by (vm_compute; lia).
  exact (readNodes_truncated "Success" (QueryNode_copyable := QueryNode_sample)
           IsValid_sample true [origin; origin; origin] [] 3 nodes_sample H1 H2 H3).
Defined.
